(** * Cododex code refiner: the analysis orchestration of [src/App.tsx]

    A shallow embedding of the state held by the [App] component (its ten
    [useState] cells), of the handlers that update it, and of the parts of
    the rendered view that gate those handlers or derive data from the
    state (the gutter, the telemetry line, the result panel).

    - JavaScript strings are sequences of UTF-16 code units.
    - The asynchronous handler [handleAnalyze] is cut at its only [await]:
      the part before it runs when the handler is invoked, the part after
      it runs when the promise of [analyzeCode] settles.
    - React state setters are modelled by explicit state passing.  No
      handler reads a cell after writing it, and the only update that
      depends on the previous value ([addLog]) uses the functional form of
      the setter, so passing the latest state is what React does. *)

From Stdlib Require Import ZArith NArith String Ascii.
From Stdlib Require Import DecimalString DecimalNat DecimalFacts.
From stdpp Require Import base list gmap strings.

Local Open Scope nat_scope.

(** ** JavaScript strings *)

Module Js.

(** A string is its sequence of UTF-16 code units. *)
Abbreviation jsstring := (list N).

(** A source literal made of ASCII characters. *)
Definition lit (s : string) : jsstring :=
  N_of_ascii <$> list_ascii_of_string s.
Arguments lit s%_string.

Definition LF : N := 10%N.
Definition dquote : jsstring := [34%N].
Definition squote : jsstring := [39%N].

(** ECMAScript [WhiteSpace] and [LineTerminator] code points, the ones
    [String.prototype.trim] strips. *)
Definition isWhiteSpace (c : N) : bool :=
  (bool_decide (c ∈ [9; 10; 11; 12; 13; 32; 160; 5760; 8232; 8233; 8239;
                     8287; 12288; 65279]%N)
   || ((8192 <=? c) && (c <=? 8202)))%N.

Fixpoint trimStart (s : jsstring) : jsstring :=
  match s with
  | [] => []
  | c :: s' => if isWhiteSpace c then trimStart s' else s
  end.

Definition trimEnd (s : jsstring) : jsstring :=
  reverse (trimStart (reverse s)).

(** [s.trim()] *)
Definition trim (s : jsstring) : jsstring := trimEnd (trimStart s).

(** Truthiness of a string: every string but the empty one. *)
Definition truthy (s : jsstring) : bool :=
  match s with [] => false | _ :: _ => true end.

(** [s.split(sep)] for a separator of one code unit: always at least one
    piece, the pieces are the maximal runs without the separator. *)
Fixpoint split (sep : N) (s : jsstring) : list jsstring :=
  match s with
  | [] => [[]]
  | c :: s' =>
      if (c =? sep)%N then [] :: split sep s'
      else match split sep s' with
           | piece :: pieces => (c :: piece) :: pieces
           | [] => [[c]]
           end
  end.

(** [pieces.join(sep)] *)
Fixpoint join (sep : jsstring) (pieces : list jsstring) : jsstring :=
  match pieces with
  | [] => []
  | [p] => p
  | p :: ps => p ++ sep ++ join sep ps
  end.

(** [String(n)] for an array length. *)
Definition ofNat (n : nat) : jsstring :=
  lit (NilZero.string_of_uint (Nat.to_uint n)).

(** [xs.slice(-k)]: the last [k] elements, all of them when there are
    fewer. *)
Definition sliceLast {A} (k : nat) (xs : list A) : list A :=
  drop (length xs - k) xs.

End Js.

Import Js.

(** ** The data model of the review ([types.ts]) *)

Inductive IssueSeverity := CRITICAL | HIGH | MEDIUM | LOW.

Inductive IssueCategory := BUG | SECURITY | PERFORMANCE | STYLE | BEST_PRACTICE.

(** [line] is a [number]; the gutter compares it with [===] against the
    integers [i+1], which no fractional value equals, so integers are
    enough to decide which rows are marked. *)
Record CodeIssue := mkIssue {
  line : Z;
  category : IssueCategory;
  severity : IssueSeverity;
  description : jsstring;
  suggestion : jsstring
}.

Record ReviewMetrics := mkMetrics {
  securityScore : Z;
  performanceScore : Z;
  maintainabilityScore : Z;
  overallHealth : Z
}.

Record CodeReviewResult := mkResult {
  summary : jsstring;
  issues : list CodeIssue;
  metrics : ReviewMetrics;
  optimizedCode : jsstring;
  languageDetected : jsstring
}.

(** ** Component state *)

Inductive Mode := mentor | strict | debugger | performance | tester.

Inductive LogType := info | warn | err.

Record LogEntry := mkLog { msg : jsstring; type : LogType }.

Definition modeText (m : Mode) : jsstring :=
  match m with
  | mentor => lit "mentor"
  | strict => lit "strict"
  | debugger => lit "debugger"
  | performance => lit "performance"
  | tester => lit "tester"
  end.

Inductive SampleKey := MemoryLeakJS | SqlInjectionPy | InefficientLoopTS.

Definition SAMPLES (k : SampleKey) : jsstring :=
  match k with
  | MemoryLeakJS =>
      join [LF]
        [ lit "let cache = [];";
          lit "function processData(data) {";
          lit "  cache.push(data);";
          lit "  return data.toUpperCase();";
          lit "}";
          lit "setInterval(() => processData(" ++ dquote ++ lit "data"
            ++ dquote ++ lit "), 100);" ]
  | SqlInjectionPy =>
      join [LF]
        [ lit "import sqlite3";
          lit "def get_user(user_id):";
          lit "  conn = sqlite3.connect(" ++ dquote ++ lit "db.sqlite"
            ++ dquote ++ lit ")";
          lit "  query = f" ++ dquote ++ lit "SELECT * FROM users WHERE id = "
            ++ squote ++ lit "{user_id}" ++ squote ++ dquote;
          lit "  conn.cursor().execute(query)";
          lit "  return cursor.fetchone()" ]
  | InefficientLoopTS =>
      join [LF]
        [ lit "function findDuplicates(arr: number[]) {";
          lit "  const dups = [];";
          lit "  for (let i = 0; i < arr.length; i++) {";
          lit "    for (let j = i + 1; j < arr.length; j++) {";
          lit "      if (arr[i] === arr[j] && !dups.includes(arr[i])) dups.push(arr[i]);";
          lit "    }";
          lit "  }";
          lit "  return dups;";
          lit "}" ]
  end.

Definition SUPPORTED_LANGUAGES : list jsstring :=
  [ lit "Auto-detect"; lit "C++"; lit "Java"; lit "C"; lit "Python" ].

(** The ten [useState] cells of [App]. *)
Record App := mkApp {
  code : jsstring;
  language : jsstring;
  provider : jsstring;
  mode : Mode;
  loading : bool;
  result : option CodeReviewResult;
  error : option jsstring;
  isBackendOnline : bool;
  logs : list LogEntry;
  copySuccess : bool
}.

Definition initialCode : jsstring :=
  join [LF]
    [ lit "// Senior Developer optimized snippet...";
      lit "async function fetchUserData(id: string) {";
      lit "  const user = await db.users.findUnique({ where: { id } });";
      lit "  if (!user) throw new Error(" ++ dquote ++ lit "404" ++ dquote
        ++ lit ");";
      lit "  return user;";
      lit "}" ].

Definition initialApp : App :=
  {| code := initialCode;
     language := lit "Auto-detect";
     provider := lit "gemini";
     mode := strict;
     loading := false;
     result := None;
     error := None;
     isBackendOnline := false;
     logs := [];
     copySuccess := false |}.

(** Updates of one cell, as the setters returned by [useState] make them. *)
Definition with_code (v : jsstring) (a : App) : App :=
  mkApp v (language a) (provider a) (mode a) (loading a) (result a) (error a)
        (isBackendOnline a) (logs a) (copySuccess a).
Definition with_language (v : jsstring) (a : App) : App :=
  mkApp (code a) v (provider a) (mode a) (loading a) (result a) (error a)
        (isBackendOnline a) (logs a) (copySuccess a).
Definition with_mode (v : Mode) (a : App) : App :=
  mkApp (code a) (language a) (provider a) v (loading a) (result a) (error a)
        (isBackendOnline a) (logs a) (copySuccess a).
Definition with_loading (v : bool) (a : App) : App :=
  mkApp (code a) (language a) (provider a) (mode a) v (result a) (error a)
        (isBackendOnline a) (logs a) (copySuccess a).
Definition with_result (v : option CodeReviewResult) (a : App) : App :=
  mkApp (code a) (language a) (provider a) (mode a) (loading a) v (error a)
        (isBackendOnline a) (logs a) (copySuccess a).
Definition with_error (v : option jsstring) (a : App) : App :=
  mkApp (code a) (language a) (provider a) (mode a) (loading a) (result a) v
        (isBackendOnline a) (logs a) (copySuccess a).
Definition with_isBackendOnline (v : bool) (a : App) : App :=
  mkApp (code a) (language a) (provider a) (mode a) (loading a) (result a)
        (error a) v (logs a) (copySuccess a).
Definition with_logs (v : list LogEntry) (a : App) : App :=
  mkApp (code a) (language a) (provider a) (mode a) (loading a) (result a)
        (error a) (isBackendOnline a) v (copySuccess a).
Definition with_copySuccess (v : bool) (a : App) : App :=
  mkApp (code a) (language a) (provider a) (mode a) (loading a) (result a)
        (error a) (isBackendOnline a) (logs a) v.

(** ** The world around the component *)

(** The arguments of one call of [analyzeCode]. *)
Record AnalyzeCall := mkCall {
  callCode : jsstring;
  callLanguage : jsstring;
  callProvider : jsstring;
  callMode : Mode;
  callIsAlternative : bool
}.

(** Modelled from the spec: [services/apiService] is not among the sources.
    Its [analyzeCode] returns a promise of a [CodeReviewResult] and fails
    with an error carrying a human-readable message, which the handler
    reads as [err.message]. *)
Record JsError := mkError { message : jsstring }.

(** How the promise of [analyzeCode] settles. *)
Inductive Settled :=
| Resolved (data : CodeReviewResult)
| Rejected (reason : JsError).

(** Every call a handler makes to a state setter or to the network client,
    in the order the calls happen. *)
Inductive Effect :=
| SetCode (v : jsstring)
| SetLanguage (v : jsstring)
| SetMode (v : Mode)
| SetLoading (v : bool)
| SetResult (v : option CodeReviewResult)
| SetError (v : option jsstring)
| SetIsBackendOnline (v : bool)
| AddLog (entry : LogEntry)
| SetCopySuccess (v : bool)
| CallAnalyzeCode (call : AnalyzeCall)
| CallWriteText (text : jsstring)
| CallSetTimeout.

Record World := mkWorld {
  app : App;
  (** calls of [analyzeCode] whose promise has not settled, oldest first *)
  inflight : list AnalyzeCall;
  (** the promise of [checkBackendStatus] of the mount effect is pending *)
  probing : bool;
  (** pending [setTimeout] callbacks of the Copy Report button *)
  timers : nat;
  (** the calls made so far *)
  history : list Effect
}.

Definition initialWorld : World :=
  {| app := initialApp; inflight := []; probing := true; timers := 0;
     history := [] |}.

(** ** Handlers as state transformers that may throw *)

Inductive Completion (A : Type) :=
| Normal (a : A)
| Thrown (reason : JsError).
Arguments Normal {A} a.
Arguments Thrown {A} reason.

Definition Act (A : Type) : Type := World -> Completion A * World.

#[global] Instance Act_ret : MRet Act := λ A a w, (Normal a, w).

#[global] Instance Act_bind : MBind Act := λ A B k m w,
  match m w with
  | (Normal a, w') => k a w'
  | (Thrown reason, w') => (Thrown reason, w')
  end.

#[global] Instance Act_throw : MThrow JsError Act := λ A reason w,
  (Thrown reason, w).

(** [try { body } catch (e) { handler } finally { finalizer }] *)
Definition tryCatchFinally (body : Act unit) (handler : JsError -> Act unit)
    (finalizer : Act unit) : Act unit := λ w,
  let caught :=
    match body w with
    | (Normal _, w1) => (Normal tt, w1)
    | (Thrown reason, w1) => handler reason w1
    end in
  match finalizer (snd caught) with
  | (Normal _, w2) => (fst caught, w2)
  | (Thrown reason, w2) => (Thrown reason, w2)
  end.

(** The state a handler leaves, whichever way it completes. *)
Definition exec (m : Act unit) (w : World) : World := snd (m w).

(** The values of the cells in the render whose closure the handler is. *)
Definition render : Act App := λ w, (Normal (app w), w).

Definition perform (e : Effect) (f : World -> World) : Act unit := λ w,
  let w' := f w in
  (Normal tt,
   mkWorld (app w') (inflight w') (probing w') (timers w') (history w ++ [e])).

Definition onApp (f : App -> App) (w : World) : World :=
  mkWorld (f (app w)) (inflight w) (probing w) (timers w) (history w).

Definition setCode (v : jsstring) : Act unit :=
  perform (SetCode v) (onApp (with_code v)).
Definition setLanguage (v : jsstring) : Act unit :=
  perform (SetLanguage v) (onApp (with_language v)).
Definition setMode (v : Mode) : Act unit :=
  perform (SetMode v) (onApp (with_mode v)).
Definition setLoading (v : bool) : Act unit :=
  perform (SetLoading v) (onApp (with_loading v)).
Definition setResult (v : option CodeReviewResult) : Act unit :=
  perform (SetResult v) (onApp (with_result v)).
Definition setError (v : option jsstring) : Act unit :=
  perform (SetError v) (onApp (with_error v)).
Definition setIsBackendOnline (v : bool) : Act unit :=
  perform (SetIsBackendOnline v) (onApp (with_isBackendOnline v)).
Definition setCopySuccess (v : bool) : Act unit :=
  perform (SetCopySuccess v) (onApp (with_copySuccess v)).

(** [prev => [...prev.slice(-24), { msg, type }]] *)
Definition pushLog (entry : LogEntry) (prev : list LogEntry) : list LogEntry :=
  sliceLast 24 prev ++ [entry].

(** [addLog(msg, type)]: [setLogs] with the functional update above. *)
Definition addLog (msg : jsstring) (type : LogType) : Act unit :=
  perform (AddLog (mkLog msg type))
          (onApp (λ a, with_logs (pushLog (mkLog msg type) (logs a)) a)).

(** [analyzeCode(code, language, provider, mode, isAlternative)]: the call
    starts and its promise is pending. *)
Definition analyzeCode (code language provider : jsstring) (mode : Mode)
    (isAlternative : bool) : Act unit :=
  let call := mkCall code language provider mode isAlternative in
  perform (CallAnalyzeCode call)
          (λ w, mkWorld (app w) (inflight w ++ [call]) (probing w) (timers w)
                        (history w)).

(** [await promise], once the promise has settled. *)
Definition await (s : Settled) : Act CodeReviewResult :=
  match s with
  | Resolved data => mret data
  | Rejected reason => mthrow reason
  end.

(** [handleAnalyze(isAlternative)], from its invocation to the [await]. *)
Definition handleAnalyze (isAlternative : bool) : Act unit :=
  a ← render;
  if negb (truthy (trim (code a))) then mret tt else
  setLoading true;;
  setError None;;
  addLog ((if isAlternative then lit "Regenerating alternative"
           else lit "Initiating")
          ++ lit " " ++ modeText (mode a) ++ lit " analysis for "
          ++ language a ++ lit "...") info;;
  analyzeCode (code a) (language a) (provider a) (mode a) isAlternative.

(** [handleAnalyze], from the settlement of the awaited promise to the
    end of the [finally] block. *)
Definition handleAnalyze_settled (s : Settled) : Act unit :=
  tryCatchFinally
    (data ← await s;
     setResult (Some data);;
     addLog (lit "Analysis complete: " ++ ofNat (length (issues data))
             ++ lit " findings.") info)
    (λ exn,
     setError (Some (message exn));;
     addLog (lit "Error: " ++ message exn) err)
    (setLoading false).

(** The mount effect, from the settlement of [checkBackendStatus]. *)
Definition init_settled (online : bool) : Act unit :=
  setIsBackendOnline online;;
  addLog (lit "Engine v1.2.0 initialized.") info.

(** ** The rendered view *)

(** [const lines = useMemo(() => code.split('\n'), [code])] *)
Definition lines (a : App) : list jsstring := split LF (code a).

Record GutterRow := mkRow { number : nat; marked : bool }.

(** One row per line: [lines.map((_, i) => ...)] shows [i+1] and puts the
    red dot when [result?.issues.some(iss => iss.line === i+1)]. *)
Definition gutter (lines : list jsstring) (found : option (list CodeIssue))
    : list GutterRow :=
  imap (λ i _,
          mkRow (i + 1)
                (match found with
                 | Some found => existsb (λ iss, (line iss =? Z.of_nat (i + 1))%Z) found
                 | None => false
                 end))
       lines.

(** The line numbers that carry a marker when a buffer of [lineCount]
    lines is rendered against [issues]. *)
Definition annotate (lineCount : nat) (issues : list CodeIssue) : gset Z :=
  list_to_set
    ((λ row, Z.of_nat (number row))
       <$> filter (λ row, marked row = true)
                  (gutter (replicate lineCount []) (Some issues))).

(** [{lines.length} L / {result?.issues.length || 0} A] *)
Definition telemetry (a : App) : jsstring :=
  ofNat (length (lines a)) ++ lit " L / "
  ++ ofNat (match result a with Some r => length (issues r) | None => 0 end)
  ++ lit " A".

Inductive Panel :=
| EmptyPlaceholder (mode : Mode)
| Skeleton
| Review (r : CodeReviewResult)   (* holds the Regenerate and Copy buttons *)
| Nothing.

(** [!result && !loading ? <EmptyPlaceholder/> : loading ? <skeleton/>
     : result && (<review/>)] *)
Definition panel (a : App) : Panel :=
  if negb (bool_decide (is_Some (result a))) && negb (loading a)
  then EmptyPlaceholder (mode a)
  else if loading a then Skeleton
  else match result a with
       | Some r => Review r
       | None => Nothing
       end.

Definition personaButtons : list Mode := [strict; mentor; debugger; performance].

Record View := mkView {
  backendDot : jsstring;
  backendLabel : jsstring;
  languageBadge : jsstring;
  activePersona : Mode;
  gutterRows : list GutterRow;
  textareaValue : jsstring;
  telemetryText : jsstring;
  analyzeDisabled : bool;
  analyzeLabel : jsstring;
  logTerminal : list LogEntry;
  rightPanel : Panel;
  copyLabel : jsstring
}.

Definition view (a : App) : View :=
  {| backendDot :=
       if isBackendOnline a then lit "bg-emerald-500" else lit "bg-indigo-500";
     backendLabel :=
       if isBackendOnline a then lit "Hybrid Bridge" else lit "Cloud Native";
     languageBadge := language a;
     activePersona := mode a;
     gutterRows := gutter (lines a) (issues <$> result a);
     textareaValue := code a;
     telemetryText := telemetry a;
     analyzeDisabled := loading a;
     analyzeLabel := if loading a then lit "Processing" else lit "Analyze";
     logTerminal := logs a;
     rightPanel := panel a;
     copyLabel := if copySuccess a then lit "Copied" else lit "Copy Report" |}.

(** ** Events *)

#[global] Instance Mode_eq_dec : EqDecision Mode.
Proof. solve_decision. Defined.

Inductive Event :=
| ClickAnalyze
| ClickRegenerate
| ChangeTextarea (value : jsstring)
| FileLoaded (text : jsstring)
| SelectSample (key : SampleKey)
| ClickClear
| SelectLanguage (value : jsstring)
| ClickPersona (p : Mode)
| ClickCopy
| TimeoutFired
| StatusSettled (online : bool)
| AnalyzeSettled (i : nat) (s : Settled).

(** [reader.onload] of the hidden file input. *)
Definition onFileLoad (text : jsstring) : Act unit :=
  setCode text;; setResult None.

(** [onChange] of the Snippet Library select. *)
Definition onSampleChange (key : SampleKey) : Act unit :=
  setCode (SAMPLES key);; setResult None.

(** [onClick] of the Clear button. *)
Definition onClear : Act unit :=
  setCode [];; setResult None.

(** [onChange] of the textarea. *)
Definition onTextareaChange (value : jsstring) : Act unit :=
  setCode value.

(** [onClick] of the Copy Report button. *)
Definition onCopy (r : CodeReviewResult) : Act unit :=
  perform (CallWriteText (summary r)) id;;
  setCopySuccess true;;
  perform CallSetTimeout
          (λ w, mkWorld (app w) (inflight w) (probing w) (S (timers w))
                        (history w)).

(** What one event does.  An event whose control is disabled or not
    rendered, or whose promise or timer does not exist, does nothing. *)
Definition step (e : Event) (w : World) : World :=
  match e with
  | ClickAnalyze =>
      (* <button onClick={() => handleAnalyze(false)} disabled={loading}> *)
      if analyzeDisabled (view (app w)) then w
      else exec (handleAnalyze false) w
  | ClickRegenerate =>
      (* the button is part of the review panel *)
      match rightPanel (view (app w)) with
      | Review _ => exec (handleAnalyze true) w
      | _ => w
      end
  | ChangeTextarea value => exec (onTextareaChange value) w
  | FileLoaded text => exec (onFileLoad text) w
  | SelectSample key => exec (onSampleChange key) w
  | ClickClear => exec onClear w
  | SelectLanguage value =>
      if bool_decide (value ∈ SUPPORTED_LANGUAGES) then exec (setLanguage value) w
      else w
  | ClickPersona p =>
      if bool_decide (p ∈ personaButtons) then exec (setMode p) w else w
  | ClickCopy =>
      match rightPanel (view (app w)) with
      | Review r => exec (onCopy r) w
      | _ => w
      end
  | TimeoutFired =>
      match timers w with
      | S k =>
          exec (setCopySuccess false)
               (mkWorld (app w) (inflight w) (probing w) k (history w))
      | O => w
      end
  | StatusSettled online =>
      if probing w
      then exec (init_settled online)
                (mkWorld (app w) (inflight w) false (timers w) (history w))
      else w
  | AnalyzeSettled i s =>
      match inflight w !! i with
      | Some _ =>
          exec (handleAnalyze_settled s)
               (mkWorld (app w) (delete i (inflight w)) (probing w) (timers w)
                        (history w))
      | None => w
      end
  end.

Definition run (events : list Event) (w : World) : World :=
  foldl (λ w e, step e w) w events.

Definition reachable (w : World) : Prop :=
  ∃ events, w = run events initialWorld.

(** ** Derived notions used in the statements *)

(** Empty, or made of white space only. *)
Definition blank (s : jsstring) : bool := forallb isWhiteSpace s.

(** A sequence of calls of [addLog], one per entry. *)
Definition appendAll (entries : list LogEntry) (w : World) : World :=
  foldl (λ w entry, exec (addLog (msg entry) (type entry)) w) w entries.

(** The same world with another value in the [isBackendOnline] cell. *)
Definition setOnline (online : bool) (w : World) : World :=
  onApp (with_isBackendOnline online) w.

(** The three template literals of [handleAnalyze]. *)
Definition startMessage (isAlternative : bool) (a : App) : jsstring :=
  (if isAlternative then lit "Regenerating alternative" else lit "Initiating")
  ++ lit " " ++ modeText (mode a) ++ lit " analysis for " ++ language a
  ++ lit "...".

Definition completeMessage (data : CodeReviewResult) : jsstring :=
  lit "Analysis complete: " ++ ofNat (length (issues data)) ++ lit " findings.".

Definition errorMessage (exn : JsError) : jsstring :=
  lit "Error: " ++ message exn.

(** The call [handleAnalyze] makes in a given render. *)
Definition callOf (isAlternative : bool) (a : App) : AnalyzeCall :=
  mkCall (code a) (language a) (provider a) (mode a) isAlternative.

(** At most one call of [analyzeCode] is pending, and [loading] tells
    whether one is. *)
Definition single_flight (w : World) : Prop :=
  (loading (app w) = false ∧ inflight w = [])
  ∨ (loading (app w) = true ∧ ∃ call, inflight w = [call]).

(** What every call of [analyzeCode] made by the component satisfies. *)
Definition well_formed_call (call : AnalyzeCall) : Prop :=
  blank (callCode call) = false
  ∧ callProvider call = lit "gemini"
  ∧ callLanguage call ∈ SUPPORTED_LANGUAGES
  ∧ callMode call ∈ personaButtons.

(** Two worlds that differ in the [error] cell at most. *)
Definition same_but_error (w1 w2 : World) : Prop :=
  onApp (with_error None) w1 = onApp (with_error None) w2.

(** ** Strings *)

Section Strings.

Lemma trimStart_nil_blank s : trimStart s = [] ↔ blank s = true.
Proof.
  induction s as [|c s IH]; simpl; [done|].
  destruct (isWhiteSpace c); simpl; [done|].
  split; discriminate.
Qed.

Lemma blank_app s t : blank (s ++ t) = blank s && blank t.
Proof. unfold blank. apply forallb_app. Qed.

Lemma blank_reverse s : blank (reverse s) = blank s.
Proof.
  induction s as [|c s IH]; [done|].
  rewrite reverse_cons, blank_app, IH. simpl.
  destruct (isWhiteSpace c), (blank s); reflexivity.
Qed.

Lemma trimStart_blank_inv s : blank (trimStart s) = true → blank s = true.
Proof.
  induction s as [|c s IH]; simpl; [done|].
  destruct (isWhiteSpace c) eqn:Hc; simpl; [done|].
  rewrite Hc. discriminate.
Qed.

Lemma reverse_eq_nil {A} (l : list A) : reverse l = [] → l = [].
Proof.
  intros H. apply (f_equal length) in H.
  rewrite length_reverse in H. by destruct l.
Qed.

(** [!code.trim()] holds exactly for the blank strings. *)
Lemma trim_falsy_iff_blank s : truthy (trim s) = false ↔ blank s = true.
Proof.
  unfold trim, trimEnd. split.
  - intros H.
    destruct (reverse (trimStart (reverse (trimStart s)))) eqn:E; [|done].
    apply reverse_eq_nil, trimStart_nil_blank in E.
    rewrite blank_reverse in E. by apply trimStart_blank_inv.
  - intros H. apply trimStart_nil_blank in H. by rewrite H.
Qed.

Lemma trim_truthy_iff_not_blank s : truthy (trim s) = true ↔ blank s = false.
Proof.
  pose proof (trim_falsy_iff_blank s) as H.
  destruct (truthy (trim s)), (blank s); intuition congruence.
Qed.

Lemma split_not_nil sep s : split sep s ≠ [].
Proof.
  destruct s as [|c s]; simpl; [done|].
  destruct (c =? sep)%N; [done|]. by destruct (split sep s).
Qed.

(** One piece more than there are separators. *)
Lemma split_length sep s :
  length (split sep s) = S (length (filter (λ c, c = sep) s)).
Proof.
  induction s as [|c s IH]; [done|].
  cbn [split]. rewrite filter_cons.
  destruct (N.eqb_spec c sep) as [->|Hne]; case_decide; try done.
  - simpl. by rewrite IH.
  - pose proof (split_not_nil sep s).
    destruct (split sep s); [done|]. exact IH.
Qed.

Lemma lit_inj s t : lit s = lit t → s = t.
Proof.
  unfold lit. revert t.
  induction s as [|a s IH]; intros [|b t]; simpl; try done.
  intros H. inversion H as [[Hab Hst]].
  f_equal; [|by apply IH].
  rewrite <- (ascii_N_embedding a), <- (ascii_N_embedding b). by rewrite Hab.
Qed.

(** Only the number zero prints as [0]. *)
Lemma to_uint_not_Nil n : Nat.to_uint n ≠ Decimal.Nil.
Proof.
  rewrite <- (DecimalNat.Unsigned.of_to n), DecimalNat.Unsigned.to_of.
  apply DecimalFacts.unorm_nonnil.
Qed.

(** Only the number zero prints as [0]. *)
Lemma ofNat_zero n : ofNat n = lit "0" → n = 0.
Proof.
  unfold ofNat. intros H%lit_inj.
  apply DecimalNat.Unsigned.to_uint_inj.
  pose proof (NilZero.usu (Nat.to_uint n) (to_uint_not_Nil n)) as Hs.
  rewrite H in Hs. by inversion Hs.
Qed.

End Strings.

(** ** The rolling log *)

Section Log.

Context {A : Type}.
Implicit Types (l m : list A) (k : nat).

Lemma sliceLast_length k l : length (sliceLast k l) = length l `min` k.
Proof. unfold sliceLast. rewrite length_drop. lia. Qed.

Lemma sliceLast_all k l : length l ≤ k → sliceLast k l = l.
Proof.
  intros H. unfold sliceLast. by replace (length l - k) with 0 by lia.
Qed.

Lemma sliceLast_app k l m :
  sliceLast k (sliceLast k l ++ m) = sliceLast k (l ++ m).
Proof.
  unfold sliceLast.
  rewrite !length_app, length_drop.
  destruct (decide (length l ≤ k)) as [Hle|Hgt].
  - replace (length l - k) with 0 by lia. simpl.
    by replace (length l - 0) with (length l) by lia.
  - rewrite <- (drop_app_le l m (length l - k)) by lia.
    rewrite drop_drop. f_equal. lia.
Qed.

Lemma sliceLast_snoc k l x :
  sliceLast k l ++ [x] = sliceLast (S k) (l ++ [x]).
Proof.
  unfold sliceLast. rewrite length_app. simpl.
  replace (length l + 1 - S k) with (length l - k) by lia.
  by rewrite drop_app_le by lia.
Qed.

End Log.

Section LogEntries.

Lemma pushLog_spec entry prev :
  pushLog entry prev = sliceLast 25 (prev ++ [entry]).
Proof. apply sliceLast_snoc. Qed.

Lemma pushLog_length entry prev :
  length (pushLog entry prev) = S (length prev `min` 24).
Proof.
  unfold pushLog. rewrite length_app, sliceLast_length. simpl. lia.
Qed.

Lemma pushLog_foldl entries prev :
  entries ≠ [] →
  foldl (λ l e, pushLog e l) prev entries = sliceLast 25 (prev ++ entries).
Proof.
  revert prev. induction entries as [|e es IH]; intros prev Hne; [done|].
  simpl. destruct es as [|e' es].
  - simpl. apply pushLog_spec.
  - rewrite IH by done. rewrite pushLog_spec, sliceLast_app.
    by rewrite <- app_assoc.
Qed.

Lemma addLog_run m t w :
  addLog m t w =
  (Normal tt,
   mkWorld (with_logs (pushLog (mkLog m t) (logs (app w))) (app w))
           (inflight w) (probing w) (timers w)
           (history w ++ [AddLog (mkLog m t)])).
Proof. reflexivity. Qed.

Lemma appendAll_logs entries w :
  logs (app (appendAll entries w))
  = foldl (λ l e, pushLog e l) (logs (app w)) entries.
Proof.
  revert w. induction entries as [|[m t] es IH]; intros w; [done|].
  change (appendAll (mkLog m t :: es) w)
    with (appendAll es (exec (addLog m t) w)).
  by rewrite IH.
Qed.

End LogEntries.

(** ** The handlers in closed form *)

Arguments lit : simpl never.
Arguments ofNat : simpl never.
Arguments pushLog : simpl never.
Arguments trim : simpl never.
Arguments SAMPLES : simpl never.
Arguments gutter : simpl never.

Ltac act_unfold :=
  unfold exec, handleAnalyze, handleAnalyze_settled, init_settled, onFileLoad,
    onSampleChange, onClear, onTextareaChange, onCopy, tryCatchFinally, await,
    render, setCode, setLanguage, setMode, setLoading, setResult, setError,
    setIsBackendOnline, setCopySuccess, addLog, analyzeCode, perform, onApp,
    mbind, mret, mthrow, Act_bind, Act_ret, Act_throw.

Ltac open_world w :=
  destruct w as [[?code ?language ?provider ?mode ?loading ?result ?error
                  ?online ?logs ?copy] ?inflight ?probing ?timers ?history].

Section Handlers.

Lemma handleAnalyze_blank isAlternative w :
  blank (code (app w)) = true →
  handleAnalyze isAlternative w = (Normal tt, w).
Proof.
  intros H%trim_falsy_iff_blank. act_unfold. by rewrite H.
Qed.

Lemma handleAnalyze_started isAlternative w :
  blank (code (app w)) = false →
  handleAnalyze isAlternative w =
  (Normal tt,
   mkWorld
     (with_logs
        (pushLog (mkLog (startMessage isAlternative (app w)) info)
                 (logs (app w)))
        (with_error None (with_loading true (app w))))
     (inflight w ++ [callOf isAlternative (app w)])
     (probing w) (timers w)
     (history w ++
        [ SetLoading true; SetError None;
          AddLog (mkLog (startMessage isAlternative (app w)) info);
          CallAnalyzeCode (callOf isAlternative (app w)) ])).
Proof.
  intros H%trim_truthy_iff_not_blank. act_unfold. rewrite H.
  open_world w. cbn. by rewrite <- !app_assoc.
Qed.

Lemma handleAnalyze_settled_resolved data w :
  handleAnalyze_settled (Resolved data) w =
  (Normal tt,
   mkWorld
     (with_loading false
        (with_logs (pushLog (mkLog (completeMessage data) info) (logs (app w)))
           (with_result (Some data) (app w))))
     (inflight w) (probing w) (timers w)
     (history w ++
        [ SetResult (Some data); AddLog (mkLog (completeMessage data) info);
          SetLoading false ])).
Proof.
  act_unfold. open_world w. cbn. by rewrite <- !app_assoc.
Qed.

Lemma handleAnalyze_settled_rejected exn w :
  handleAnalyze_settled (Rejected exn) w =
  (Normal tt,
   mkWorld
     (with_loading false
        (with_logs (pushLog (mkLog (errorMessage exn) err) (logs (app w)))
           (with_error (Some (message exn)) (app w))))
     (inflight w) (probing w) (timers w)
     (history w ++
        [ SetError (Some (message exn)); AddLog (mkLog (errorMessage exn) err);
          SetLoading false ])).
Proof.
  act_unfold. open_world w. cbn. by rewrite <- !app_assoc.
Qed.

Lemma blank_cases s : blank s = true ∨ blank s = false.
Proof. destruct (blank s); auto. Qed.

End Handlers.

(** ** Invariants of the event loop *)

Section Invariants.

Lemma run_snoc events e w : run (events ++ [e]) w = step e (run events w).
Proof. unfold run. by rewrite foldl_app. Qed.

Lemma reachable_initial : reachable initialWorld.
Proof. by exists []. Qed.

Lemma reachable_step e w : reachable w → reachable (step e w).
Proof. intros [events ->]. exists (events ++ [e]). by rewrite run_snoc. Qed.

Lemma reachable_run events w : reachable w → reachable (run events w).
Proof.
  revert w. induction events as [|e events IH]; intros w Hw; [done|].
  apply IH. by apply reachable_step.
Qed.

Lemma reachable_ind (P : World → Prop) :
  P initialWorld →
  (∀ e w, reachable w → P w → P (step e w)) →
  ∀ w, reachable w → P w.
Proof.
  intros Hinit Hstep w [events ->].
  induction events as [|e events IH] using rev_ind; [done|].
  rewrite run_snoc. apply Hstep; [by eexists|done].
Qed.

Lemma panel_Review_idle a r :
  panel a = Review r → loading a = false ∧ result a = Some r.
Proof.
  unfold panel. destruct a as [? ? ? ? ld res ? ? ? ?]; simpl.
  destruct res, ld; simpl; try discriminate. intros [= ->]. done.
Qed.

Lemma panel_not_Nothing a : panel a ≠ Nothing.
Proof.
  unfold panel. destruct a as [? ? ? ? ld res ? ? ? ?]; simpl.
  by destruct res, ld.
Qed.

(** A submission leaves the world alone or starts the only pending call. *)
Lemma handleAnalyze_single_flight isAlternative w :
  loading (app w) = false → single_flight w →
  single_flight (exec (handleAnalyze isAlternative) w).
Proof.
  intros Hidle Hsf. unfold exec.
  destruct (blank_cases (code (app w))) as [Hb|Hb].
  - by rewrite handleAnalyze_blank.
  - rewrite handleAnalyze_started by done. right. simpl.
    destruct Hsf as [[_ ->]|[Hld _]]; [|congruence].
    split; [done|]. by eexists.
Qed.

Lemma step_single_flight e w : single_flight w → single_flight (step e w).
Proof.
  intros Hsf. destruct e; unfold step.
  - (* ClickAnalyze *)
    simpl. destruct (loading (app w)) eqn:Hld; [done|].
    by apply handleAnalyze_single_flight.
  - (* ClickRegenerate *)
    simpl. destruct (panel (app w)) eqn:Hp; try done.
    apply panel_Review_idle in Hp as [Hld _].
    by apply handleAnalyze_single_flight.
  - open_world w. exact Hsf.
  - open_world w. exact Hsf.
  - open_world w. exact Hsf.
  - open_world w. exact Hsf.
  - case_bool_decide; [|done]. open_world w. exact Hsf.
  - case_bool_decide; [|done]. open_world w. exact Hsf.
  - simpl. destruct (panel (app w)); try done; open_world w; exact Hsf.
  - destruct (timers w) eqn:Ht; [done|]. open_world w. exact Hsf.
  - destruct (probing w) eqn:Hpr; [|done]. open_world w. exact Hsf.
  - (* AnalyzeSettled *)
    destruct (inflight w !! i) eqn:Hi; [|done].
    destruct Hsf as [[_ Hnil]|[_ [call Hone]]].
    { rewrite Hnil in Hi. done. }
    assert (i = 0) as ->.
    { rewrite Hone in Hi. destruct i; [done|]. done. }
    unfold exec. left.
    destruct s.
    + rewrite handleAnalyze_settled_resolved. simpl. by rewrite Hone.
    + rewrite handleAnalyze_settled_rejected. simpl. by rewrite Hone.
Qed.

Lemma reachable_single_flight w : reachable w → single_flight w.
Proof.
  revert w. apply reachable_ind.
  - by left.
  - intros e w _. apply step_single_flight.
Qed.

Lemma pushLog_bounded entry prev : length (pushLog entry prev) ≤ 25.
Proof. rewrite pushLog_length. lia. Qed.

Lemma step_logs_bounded e w :
  length (logs (app w)) ≤ 25 → length (logs (app (step e w))) ≤ 25.
Proof.
  intros Hle. destruct e; unfold step.
  - simpl. destruct (loading (app w)); [done|]. unfold exec.
    destruct (blank_cases (code (app w))) as [Hb|Hb].
    + by rewrite handleAnalyze_blank.
    + rewrite handleAnalyze_started by done. simpl. apply pushLog_bounded.
  - simpl. destruct (panel (app w)); try done. unfold exec.
    destruct (blank_cases (code (app w))) as [Hb|Hb].
    + by rewrite handleAnalyze_blank.
    + rewrite handleAnalyze_started by done. simpl. apply pushLog_bounded.
  - open_world w. exact Hle.
  - open_world w. exact Hle.
  - open_world w. exact Hle.
  - open_world w. exact Hle.
  - case_bool_decide; [|done]. open_world w. exact Hle.
  - case_bool_decide; [|done]. open_world w. exact Hle.
  - simpl. destruct (panel (app w)); try done; open_world w; exact Hle.
  - destruct (timers w) eqn:Ht; [done|]. open_world w. exact Hle.
  - destruct (probing w) eqn:Hpr; [|done]. open_world w.
    apply pushLog_bounded.
  - destruct (inflight w !! i) eqn:Hi; [|done]. unfold exec. destruct s.
    + rewrite handleAnalyze_settled_resolved. simpl. apply pushLog_bounded.
    + rewrite handleAnalyze_settled_rejected. simpl. apply pushLog_bounded.
Qed.

Lemma reachable_logs_bounded w : reachable w → length (logs (app w)) ≤ 25.
Proof.
  revert w. apply reachable_ind.
  - simpl. lia.
  - intros e w _. apply step_logs_bounded.
Qed.

End Invariants.

(** ** The gutter *)

Section Gutter.

Lemma gutter_lookup lines found i :
  gutter lines found !! i =
  if decide (i < length lines)
  then Some (mkRow (i + 1)
               (match found with
                | Some found =>
                    existsb (λ iss, (line iss =? Z.of_nat (i + 1))%Z) found
                | None => false
                end))
  else None.
Proof.
  unfold gutter. rewrite list_lookup_imap.
  case_decide as Hi.
  - apply lookup_lt_is_Some_2 in Hi as [x ->]. done.
  - rewrite lookup_ge_None_2 by lia. done.
Qed.

Lemma gutter_length lines found : length (gutter lines found) = length lines.
Proof. unfold gutter. apply length_imap. Qed.

(** The rows depend on the number of lines only. *)
Lemma gutter_replicate lines found :
  gutter lines found = gutter (replicate (length lines) []) found.
Proof.
  apply list_eq. intros i. rewrite !gutter_lookup, length_replicate. done.
Qed.

Lemma existsb_line issues n :
  existsb (λ iss, (line iss =? n)%Z) issues = true
  ↔ ∃ iss, iss ∈ issues ∧ line iss = n.
Proof.
  rewrite existsb_exists. split.
  - intros (iss & Hin & Heq). exists iss.
    split; [by apply list_elem_of_In|by apply Z.eqb_eq].
  - intros (iss & Hin & Heq). exists iss.
    split; [by apply list_elem_of_In|by apply Z.eqb_eq].
Qed.

Lemma elem_of_annotate lineCount issues i :
  i ∈ annotate lineCount issues
  ↔ (1 ≤ i ≤ Z.of_nat lineCount)%Z ∧ ∃ iss, iss ∈ issues ∧ line iss = i.
Proof.
  unfold annotate.
  rewrite elem_of_list_to_set, list_elem_of_fmap. split.
  - intros (row & -> & Hrow).
    apply list_elem_of_filter in Hrow as [Hmarked Hin].
    apply list_elem_of_lookup in Hin as [k Hk].
    rewrite gutter_lookup, length_replicate in Hk.
    case_decide; [|done]. injection Hk as <-. simpl in *.
    split; [lia|]. by apply existsb_line.
  - intros (Hrange & Hiss).
    exists (mkRow (Z.to_nat i) true). simpl.
    split; [lia|]. apply list_elem_of_filter. split; [done|].
    apply list_elem_of_lookup. exists (Z.to_nat i - 1).
    rewrite gutter_lookup, length_replicate.
    case_decide; [|lia].
    replace (Z.to_nat i - 1 + 1) with (Z.to_nat i) by lia.
    do 2 f_equal. apply existsb_line.
    by replace (Z.of_nat (Z.to_nat i)) with i by lia.
Qed.

(** A row of the rendered gutter is marked exactly when its number is
    annotated. *)
Lemma gutter_marked_iff_annotated lines issues row :
  row ∈ gutter lines (Some issues) →
  marked row = true ↔ Z.of_nat (number row) ∈ annotate (length lines) issues.
Proof.
  intros [k Hk]%list_elem_of_lookup.
  rewrite gutter_lookup in Hk. case_decide; [|done]. injection Hk as <-.
  simpl. rewrite elem_of_annotate, existsb_line. split.
  - intros Hiss. split; [lia|done].
  - by intros [_ Hiss].
Qed.

End Gutter.

(** ** The claims *)

(** C2. Submitting a buffer that is empty or holds white space only does
    nothing: [handleAnalyze] completes normally and leaves the whole world
    as it was, that is the cells [loading], [result], [error] and [logs],
    the pending calls of [analyzeCode] (no network call) and the record of
    setter and client calls (no log entry); the same holds for a click on
    either button that submits. *)
Theorem handleAnalyze_blank_is_noop (isAlternative : bool) (w : World) :
  blank (code (app w)) = true →
  handleAnalyze isAlternative w = (Normal tt, w)
  ∧ step ClickAnalyze w = w
  ∧ step ClickRegenerate w = w.
Proof.
  intros Hb. split; [by apply handleAnalyze_blank|].
  unfold step, exec. split.
  - destruct (analyzeDisabled _); [done|]. by rewrite handleAnalyze_blank.
  - destruct (rightPanel _); try done. by rewrite handleAnalyze_blank.
Qed.

Lemma handleAnalyze_blank_is_noop_witness :
  let w := onApp (with_code [32; 9; 10; 160]%N) initialWorld in
  blank (code (app w)) = true
  ∧ handleAnalyze true w = (Normal tt, w)
  ∧ step ClickAnalyze w = w
  ∧ step ClickRegenerate w = w.
Proof.
  split; [reflexivity|].
  apply (handleAnalyze_blank_is_noop true
           (onApp (with_code [32; 9; 10; 160]%N) initialWorld)).
  reflexivity.
Defined.

(** C3. The activity log never holds more than 25 entries: in every world
    the event loop reaches it has at most 25, and after more than 25 calls
    of [addLog] it holds exactly the last 25 entries appended, unchanged and
    in the order of their appends (oldest first), whatever it held before. *)
Theorem log_keeps_latest_25 (entries : list LogEntry) (w : World)
    (events : list Event) :
  length (logs (app (run events initialWorld))) ≤ 25
  ∧ (25 < length entries →
     logs (app (appendAll entries w)) = drop (length entries - 25) entries
     ∧ length (logs (app (appendAll entries w))) = 25).
Proof.
  split.
  - apply reachable_logs_bounded. by eexists.
  - intros Hlen.
    assert (Hlogs : logs (app (appendAll entries w))
                    = drop (length entries - 25) entries).
    { rewrite appendAll_logs, pushLog_foldl by (by destruct entries; [simpl in Hlen; lia|]).
      unfold sliceLast. rewrite length_app, drop_app_ge by lia.
      f_equal. lia. }
    split; [done|]. rewrite Hlogs, length_drop. lia.
Qed.

Lemma log_keeps_latest_25_witness :
  let entries := (λ i, mkLog (ofNat i) info) <$> seq 0 27 in
  25 < length entries
  ∧ logs (app (appendAll entries initialWorld))
    = drop (length entries - 25) entries
  ∧ length (logs (app (appendAll entries initialWorld))) = 25.
Proof.
  split; [vm_compute; lia|].
  apply (proj2 (log_keeps_latest_25
                  ((λ i, mkLog (ofNat i) info) <$> seq 0 27) initialWorld [])).
  vm_compute; lia.
Defined.

(** C5. Which lines are annotated is a function of the line count and the
    issues alone: line [i] is annotated exactly when [1 <= i <= lineCount]
    and some issue has [line = i].  Issues outside that range are left out
    and several issues on one line give one member; so five lines with
    issues on lines 3, 3 and 9 give exactly the set holding 3. *)
Theorem annotate_membership (lineCount : nat) (issues : list CodeIssue) (i : Z)
    (a b c : CodeIssue) :
  (i ∈ annotate lineCount issues
   ↔ (1 ≤ i ≤ Z.of_nat lineCount)%Z ∧ ∃ iss, iss ∈ issues ∧ line iss = i)
  ∧ (line a = 3%Z → line b = 3%Z → line c = 9%Z →
     annotate 5 [a; b; c] = {[ 3%Z ]}).
Proof.
  split; [apply elem_of_annotate|].
  intros Ha Hb Hc. apply set_eq. intros z.
  rewrite elem_of_annotate, elem_of_singleton. split.
  - intros (Hrange & iss & Hin & Hline).
    rewrite !elem_of_cons, elem_of_nil in Hin.
    destruct Hin as [->|[->|[->|[]]]]; lia.
  - intros ->. split; [lia|]. exists a. split; [|done]. apply elem_of_cons. by left.
Qed.

Lemma annotate_membership_witness :
  let a := mkIssue 3 BUG HIGH (lit "leak") (lit "free it") in
  let b := mkIssue 3 STYLE LOW (lit "name") (lit "rename") in
  let c := mkIssue 9 SECURITY CRITICAL (lit "injection") (lit "escape") in
  annotate 5 [a; b; c] = {[ 3%Z ]}.
Proof.
  apply (proj2 (annotate_membership 0 [] 0%Z
                  (mkIssue 3 BUG HIGH (lit "leak") (lit "free it"))
                  (mkIssue 3 STYLE LOW (lit "name") (lit "rename"))
                  (mkIssue 9 SECURITY CRITICAL (lit "injection") (lit "escape"))));
    reflexivity.
Defined.

(** C10. Every buffer, the empty one included, splits into at least one
    line: the gutter has as many rows as there are lines and its first row
    is row 1, and the line count the telemetry prints is never 0. *)
Theorem lines_at_least_one (a : App) :
  split LF [] = [[]]
  ∧ 1 ≤ length (lines a)
  ∧ length (gutterRows (view a)) = length (lines a)
  ∧ (∃ m, gutterRows (view a) !! 0 = Some (mkRow 1 m))
  ∧ telemetryText (view a)
    = ofNat (length (lines a)) ++ lit " L / "
      ++ ofNat (match result a with
                | Some r => length (issues r)
                | None => 0
                end)
      ++ lit " A"
  ∧ ofNat (length (lines a)) ≠ lit "0"
  ∧ (1%Z ∈ annotate (length (lines a)) (from_option issues [] (result a))
     ↔ ∃ iss, iss ∈ from_option issues [] (result a) ∧ line iss = 1%Z).
Proof.
  assert (Hlen : 1 ≤ length (lines a)).
  { unfold lines. rewrite split_length. lia. }
  split; [done|]. split; [done|].
  split; [apply gutter_length|].
  split.
  { simpl. rewrite gutter_lookup. case_decide; [|lia]. by eexists. }
  split; [done|].
  split.
  { intros H%ofNat_zero. lia. }
  rewrite elem_of_annotate. split; [by intros [_ ?]|]. intros ?. split; [lia|done].
Qed.

(** C6. A submission of a buffer that is not blank starts one call and
    raises [loading]; when the promise settles, whatever happened to the
    world in between, the rest of [handleAnalyze] completes normally, so no
    rejection escapes it, lowers [loading], and does exactly one of two
    things: on a resolved promise it stores the result and touches neither
    [error] nor the error level of the log, on a rejected one it stores the
    message, logs it at level [err] and leaves [result] as it was. *)
Theorem handleAnalyze_settles_once (w w' : World) (isAlternative : bool)
    (s : Settled) :
  blank (code (app w)) = false →
  let started := handleAnalyze isAlternative w in
  let settled := handleAnalyze_settled s w' in
  fst started = Normal tt
  ∧ loading (app (snd started)) = true
  ∧ inflight (snd started) = inflight w ++ [callOf isAlternative (app w)]
  ∧ fst settled = Normal tt
  ∧ loading (app (snd settled)) = false
  ∧ inflight (snd settled) = inflight w'
  ∧ match s with
    | Resolved data =>
        result (app (snd settled)) = Some data
        ∧ error (app (snd settled)) = error (app w')
        ∧ last (logs (app (snd settled)))
          = Some (mkLog (completeMessage data) info)
    | Rejected exn =>
        error (app (snd settled)) = Some (message exn)
        ∧ result (app (snd settled)) = result (app w')
        ∧ last (logs (app (snd settled)))
          = Some (mkLog (errorMessage exn) err)
    end.
Proof.
  intros Hb. cbv zeta. rewrite handleAnalyze_started by done.
  destruct s as [data|exn].
  - rewrite handleAnalyze_settled_resolved. simpl.
    repeat split. apply last_snoc.
  - rewrite handleAnalyze_settled_rejected. simpl.
    repeat split. apply last_snoc.
Qed.

Lemma handleAnalyze_settles_once_witness :
  let exn := mkError (lit "503") in
  let w := exec (handleAnalyze false) initialWorld in
  blank (code (app initialWorld)) = false
  ∧ fst (handleAnalyze_settled (Rejected exn) w) = Normal tt
  ∧ loading (app (snd (handleAnalyze_settled (Rejected exn) w))) = false
  ∧ error (app (snd (handleAnalyze_settled (Rejected exn) w))) = Some (lit "503").
Proof.
  split; [reflexivity|].
  pose proof (handleAnalyze_settles_once initialWorld
                (exec (handleAnalyze false) initialWorld) false
                (Rejected (mkError (lit "503"))) eq_refl) as H.
  cbv zeta in H. destruct H as (_ & _ & _ & Hn & Hl & _ & He & _).
  split; [exact Hn|]. split; [exact Hl|exact He].
Defined.



(** C8. The value of [isBackendOnline] has no influence on a submission:
    run in two worlds that differ in that cell only, both halves of
    [handleAnalyze] complete the same way and leave worlds that again
    differ in that cell only, so the same cells are written, the same call
    to [analyzeCode] is made and the same log entries are appended; this
    holds for every event but the settlement of the status probe, which
    writes the cell.  In the view the cell decides the status dot and its
    label and nothing else. *)
Theorem submission_ignores_backend_flag (online : bool) (w : World)
    (isAlternative : bool) (s : Settled) (e : Event) :
  handleAnalyze isAlternative (setOnline online w)
  = (fst (handleAnalyze isAlternative w),
     setOnline online (snd (handleAnalyze isAlternative w)))
  ∧ handleAnalyze_settled s (setOnline online w)
    = (fst (handleAnalyze_settled s w),
       setOnline online (snd (handleAnalyze_settled s w)))
  ∧ match e with
    | StatusSettled _ => True
    | _ => step e (setOnline online w) = setOnline online (step e w)
    end
  ∧ view (app (setOnline online w))
    = let v := view (app w) in
      mkView (if online then lit "bg-emerald-500" else lit "bg-indigo-500")
             (if online then lit "Hybrid Bridge" else lit "Cloud Native")
             (languageBadge v) (activePersona v) (gutterRows v)
             (textareaValue v) (telemetryText v) (analyzeDisabled v)
             (analyzeLabel v) (logTerminal v) (rightPanel v) (copyLabel v).
Proof.
  assert (Hstart : ∀ alt,
    handleAnalyze alt (setOnline online w)
    = (fst (handleAnalyze alt w), setOnline online (snd (handleAnalyze alt w)))).
  { intros alt. destruct (blank_cases (code (app w))) as [Hb|Hb].
    - rewrite !handleAnalyze_blank; [done..|by destruct w as [[]]].
    - rewrite !handleAnalyze_started; [done..|by destruct w as [[]]]. }
  assert (Hsettle' : ∀ s' v,
    handleAnalyze_settled s' (setOnline online v)
    = (fst (handleAnalyze_settled s' v),
       setOnline online (snd (handleAnalyze_settled s' v)))).
  { intros [data|exn] v.
    - by rewrite !handleAnalyze_settled_resolved.
    - by rewrite !handleAnalyze_settled_rejected. }
  split; [apply Hstart|]. split; [apply Hsettle'|]. split; [|done].
  destruct e as [| | | | | | | | | | |i s']; try done; unfold step.
  - change (analyzeDisabled (view (app (setOnline online w))))
      with (analyzeDisabled (view (app w))).
    destruct (analyzeDisabled _); [done|]. unfold exec. by rewrite Hstart.
  - change (rightPanel (view (app (setOnline online w))))
      with (rightPanel (view (app w))).
    destruct (rightPanel _); try done. unfold exec. by rewrite Hstart.
  - by case_bool_decide.
  - by case_bool_decide.
  - change (rightPanel (view (app (setOnline online w))))
      with (rightPanel (view (app w))).
    by destruct (rightPanel _).
  - change (timers (setOnline online w)) with (timers w).
    by destruct (timers w).
  - change (inflight (setOnline online w)) with (inflight w).
    destruct (inflight w !! i); [|done].
    unfold exec.
    change (mkWorld (app (setOnline online w)) (delete i (inflight w))
              (probing (setOnline online w)) (timers (setOnline online w))
              (history (setOnline online w)))
      with (setOnline online
              (mkWorld (app w) (delete i (inflight w)) (probing w) (timers w)
                       (history w))).
    by rewrite Hsettle'.
Qed.

(** C9. Loading a file, choosing a sample and the Clear button replace the
    buffer and set [result] to [null], and leave [error] and the log as
    they were.  Typing in the textarea replaces the buffer and leaves
    [result] as well, so the gutter of the new buffer is marked from the
    issues of the old result. *)
Theorem buffer_replacement_and_editing (w : World) (text : jsstring)
    (key : SampleKey) :
  let replaced (w' : World) (buffer : jsstring) :=
    code (app w') = buffer ∧ result (app w') = None
    ∧ error (app w') = error (app w) ∧ logs (app w') = logs (app w) in
  replaced (step (FileLoaded text) w) text
  ∧ replaced (step (SelectSample key) w) (SAMPLES key)
  ∧ replaced (step ClickClear w) []
  ∧ code (app (step (ChangeTextarea text) w)) = text
  ∧ result (app (step (ChangeTextarea text) w)) = result (app w)
  ∧ error (app (step (ChangeTextarea text) w)) = error (app w)
  ∧ logs (app (step (ChangeTextarea text) w)) = logs (app w)
  ∧ gutterRows (view (app (step (ChangeTextarea text) w)))
    = gutter (split LF text) (issues <$> result (app w)).
Proof. open_world w. repeat split. Qed.

(** A click on a button that submits, in a world where it is enabled. *)
Lemma step_ClickAnalyze_idle w :
  loading (app w) = false →
  step ClickAnalyze w = exec (handleAnalyze false) w.
Proof. intros H. unfold step. simpl. by rewrite H. Qed.

Lemma step_ClickRegenerate_review w r :
  loading (app w) = false → result (app w) = Some r →
  step ClickRegenerate w = exec (handleAnalyze true) w.
Proof.
  intros Hl Hr. unfold step. simpl. unfold panel. by rewrite Hl, Hr.
Qed.

Lemma step_AnalyzeSettled_only call s w :
  inflight w = [call] →
  step (AnalyzeSettled 0 s) w
  = exec (handleAnalyze_settled s)
         (mkWorld (app w) [] (probing w) (timers w) (history w)).
Proof. intros H. unfold step. by rewrite H. Qed.

(** One submission from a world without pending calls, then its
    settlement. *)
Lemma submission_cycle w isAlternative s :
  blank (code (app w)) = false →
  inflight w = [] →
  let w' := step (AnalyzeSettled 0 s) (exec (handleAnalyze isAlternative) w) in
  loading (app w') = false
  ∧ inflight w' = []
  ∧ code (app w') = code (app w)
  ∧ match s with
    | Resolved data => result (app w') = Some data ∧ error (app w') = None
    | Rejected exn =>
        result (app w') = result (app w)
        ∧ error (app w') = Some (message exn)
        ∧ last (logs (app w')) = Some (mkLog (errorMessage exn) err)
    end.
Proof.
  intros Hb Hin. cbv zeta. unfold exec.
  rewrite handleAnalyze_started by done.
  erewrite step_AnalyzeSettled_only by (simpl; by rewrite Hin).
  unfold exec. destruct s as [data|exn].
  - rewrite handleAnalyze_settled_resolved. simpl. done.
  - rewrite handleAnalyze_settled_rejected. simpl.
    repeat split. apply last_snoc.
Qed.

(** C4. A failed attempt does not erase the result of an earlier one: after
    a submission that resolves with [R1] and a second one, by either
    button, that is rejected with [E], the [result] cell still holds [R1]
    and the review panel shows it, while [error] holds the message of [E]
    and the last line of the log terminal reports it at level [err]. *)
Theorem failed_attempt_keeps_last_result (w : World) (R1 : CodeReviewResult)
    (E : JsError) (again : Event) :
  blank (code (app w)) = false →
  loading (app w) = false →
  inflight w = [] →
  again = ClickAnalyze ∨ again = ClickRegenerate →
  let w1 := run [ClickAnalyze; AnalyzeSettled 0 (Resolved R1)] w in
  let w2 := run [again; AnalyzeSettled 0 (Rejected E)] w1 in
  result (app w1) = Some R1
  ∧ error (app w1) = None
  ∧ result (app w2) = Some R1
  ∧ error (app w2) = Some (message E)
  ∧ loading (app w2) = false
  ∧ rightPanel (view (app w2)) = Review R1
  ∧ last (logTerminal (view (app w2))) = Some (mkLog (errorMessage E) err).
Proof.
  intros Hb Hl Hin Hagain. cbv zeta.
  change (run [ClickAnalyze; AnalyzeSettled 0 (Resolved R1)] w)
    with (step (AnalyzeSettled 0 (Resolved R1)) (step ClickAnalyze w)).
  rewrite step_ClickAnalyze_idle by done.
  destruct (submission_cycle w false (Resolved R1) Hb Hin)
    as (Hl1 & Hin1 & Hc1 & Hr1 & He1).
  set (w1 := step (AnalyzeSettled 0 (Resolved R1)) (exec (handleAnalyze false) w))
    in *.
  split; [done|]. split; [done|].
  change (run [again; AnalyzeSettled 0 (Rejected E)] w1)
    with (step (AnalyzeSettled 0 (Rejected E)) (step again w1)).
  assert (Hb1 : blank (code (app w1)) = false) by (by rewrite Hc1).
  assert (Hsub : ∃ alt, step again w1 = exec (handleAnalyze alt) w1).
  { destruct Hagain as [->| ->].
    - exists false. by apply step_ClickAnalyze_idle.
    - exists true. by eapply step_ClickRegenerate_review. }
  destruct Hsub as [alt ->].
  destruct (submission_cycle w1 alt (Rejected E) Hb1 Hin1)
    as (Hl2 & Hin2 & Hc2 & Hr2 & He2 & Hlog2).
  set (w2 := step (AnalyzeSettled 0 (Rejected E)) (exec (handleAnalyze alt) w1))
    in *.
  rewrite Hr1 in Hr2.
  split; [done|]. split; [done|]. split; [done|].
  split; [|exact Hlog2].
  simpl. unfold panel. by rewrite Hr2, Hl2.
Qed.

Lemma failed_attempt_keeps_last_result_witness :
  let R1 := mkResult (lit "fine") [mkIssue 3 BUG HIGH [] []]
                     (mkMetrics 90 80 70 85) (lit "x") (lit "TypeScript") in
  let E := mkError (lit "503") in
  let w1 := run [ClickAnalyze; AnalyzeSettled 0 (Resolved R1)] initialWorld in
  let w2 := run [ClickRegenerate; AnalyzeSettled 0 (Rejected E)] w1 in
  blank (code (app initialWorld)) = false
  ∧ result (app w2) = Some R1
  ∧ error (app w2) = Some (message E).
Proof.
  intros R1 E w1 w2.
  split; [reflexivity|].
  destruct (failed_attempt_keeps_last_result initialWorld R1 E ClickRegenerate
              eq_refl eq_refl eq_refl (or_intror eq_refl))
    as (_ & _ & Hr & He & _).
  split; [exact Hr|exact He].
Defined.

(** C1. A submission made while an earlier one is pending is rejected, for
    every interleaving of events: in every world the event loop reaches, at
    most one call of [analyzeCode] is pending and [loading] is true exactly
    when one is; while one is pending a click on Analyze (disabled) or on
    Regenerate Alternative (not rendered) changes nothing, so no second
    call starts, and the settlement that arrives is that of the only
    submission made and leaves no call pending. *)
Theorem view_rejects_overlapping_submission (w : World) :
  reachable w →
  length (inflight w) ≤ 1
  ∧ (loading (app w) = true ↔ inflight w ≠ [])
  ∧ (inflight w ≠ [] →
     step ClickAnalyze w = w ∧ step ClickRegenerate w = w)
  ∧ (∀ i s, is_Some (inflight w !! i) →
     inflight (step (AnalyzeSettled i s) w) = []).
Proof.
  intros Hreach.
  pose proof (reachable_single_flight w Hreach) as Hsf.
  pose proof (step_single_flight) as Hstep.
  destruct Hsf as [[Hl Hin]|[Hl [call Hin]]].
  - rewrite Hin, Hl. split; [simpl; lia|]. split; [split; done|].
    split; [done|]. intros i s [x Hx]. by rewrite lookup_nil in Hx.
  - rewrite Hin, Hl. split; [simpl; lia|]. split; [split; done|].
    split.
    + intros _. split.
      * unfold step. simpl. by rewrite Hl.
      * unfold step. simpl. unfold panel. rewrite Hl.
        by destruct (result (app w)).
    + intros i s [x Hx].
      assert (i = 0) as -> by (destruct i; [done|by rewrite lookup_cons, lookup_nil in Hx]).
      erewrite step_AnalyzeSettled_only by done.
      unfold exec. destruct s.
      * by rewrite handleAnalyze_settled_resolved.
      * by rewrite handleAnalyze_settled_rejected.
Qed.

Lemma view_rejects_overlapping_submission_witness :
  let w := run [ClickAnalyze] initialWorld in
  reachable w
  ∧ length (inflight w) = 1
  ∧ step ClickAnalyze w = w
  ∧ step ClickRegenerate w = w.
Proof.
  assert (Hreach : reachable (run [ClickAnalyze] initialWorld))
    by (exists [ClickAnalyze]; reflexivity).
  split; [exact Hreach|]. split; [reflexivity|].
  apply (view_rejects_overlapping_submission _ Hreach).
  vm_compute. discriminate.
Defined.

(** The rejection is the view's doing, not the handler's: were
    [handleAnalyze] invoked while a call is pending it would start a second
    one, and a settlement of the first arriving after that of the second
    would replace the stored result.  No event invokes it there: the world
    with two pending calls is not reachable. *)
Lemma handleAnalyze_overlap_overwrites :
  let RA := mkResult (lit "answer to A") [] (mkMetrics 1 1 1 1) [] [] in
  let RB := mkResult (lit "answer to B") [] (mkMetrics 2 2 2 2) [] [] in
  let wA := step ClickAnalyze initialWorld in
  let wAB := exec (handleAnalyze true) wA in
  let wB := step (AnalyzeSettled 1 (Resolved RB)) wAB in
  let wBA := step (AnalyzeSettled 0 (Resolved RA)) wB in
  length (inflight wA) = 1
  ∧ length (inflight wAB) = 2
  ∧ wAB ≠ wA
  ∧ callIsAlternative <$> inflight wAB = [false; true]
  ∧ result (app wB) = Some RB
  ∧ callIsAlternative <$> inflight wB = [false]
  ∧ result (app wBA) = Some RA
  ∧ RA ≠ RB
  ∧ ¬ reachable wAB.
Proof.
  repeat split; try reflexivity.
  - intros H. apply (f_equal (λ w, length (inflight w))) in H.
    vm_compute in H. discriminate.
  - discriminate.
  - intros [[_ H]|[_ [call H]]]%reachable_single_flight;
      apply (f_equal length) in H; vm_compute in H; discriminate.
Qed.

(** The markers of an old result stay on the rows of an edited buffer. *)
Example stale_markers_after_typing :
  let R := mkResult [] [mkIssue 2 BUG HIGH [] []] (mkMetrics 0 0 0 0) [] [] in
  let w := run [ClickAnalyze; AnalyzeSettled 0 (Resolved R);
                ChangeTextarea (lit "a" ++ [LF] ++ lit "b" ++ [LF] ++ lit "c")]
               initialWorld in
  marked <$> gutterRows (view (app w)) = [false; true; false].
Proof. reflexivity. Qed.

(** ** Further properties of the component *)

(** The guard of [handleAnalyze] is exact: an invocation leaves the world
    as it was if and only if the buffer is blank. *)
Theorem handleAnalyze_noop_iff_blank (isAlternative : bool) (w : World) :
  exec (handleAnalyze isAlternative) w = w ↔ blank (code (app w)) = true.
Proof.
  split.
  - intros Heq. destruct (blank_cases (code (app w))) as [Hb|Hb]; [done|].
    unfold exec in Heq. rewrite handleAnalyze_started in Heq by done.
    apply (f_equal (λ v, length (history v))) in Heq. simpl in Heq.
    rewrite length_app in Heq. simpl in Heq. lia.
  - intros Hb. unfold exec. by rewrite handleAnalyze_blank.
Qed.

(** ** Lines of the buffer *)

Lemma split_cons_ne sep c s :
  c ≠ sep →
  ∃ piece pieces,
    split sep s = piece :: pieces ∧ split sep (c :: s) = (c :: piece) :: pieces.
Proof.
  intros Hne. cbn [split].
  destruct (N.eqb_spec c sep) as [|_]; [done|].
  pose proof (split_not_nil sep s).
  destruct (split sep s) as [|piece pieces]; [done|]. by eexists _, _.
Qed.

Lemma split_cons_eq sep s : split sep (sep :: s) = [] :: split sep s.
Proof. cbn [split]. by rewrite N.eqb_refl. Qed.

Lemma join_cons_cons sep p q ps :
  join sep (p :: q :: ps) = p ++ sep ++ join sep (q :: ps).
Proof. reflexivity. Qed.

Lemma join_split sep s : join [sep] (split sep s) = s.
Proof.
  induction s as [|c s IH]; [done|].
  destruct (decide (c = sep)) as [->|Hne].
  - cbn [split]. rewrite N.eqb_refl.
    pose proof (split_not_nil sep s).
    destruct (split sep s) as [|piece pieces] eqn:E; [done|].
    rewrite join_cons_cons, IH. done.
  - destruct (split_cons_ne sep c s Hne) as (piece & pieces & E1 & E2).
    rewrite E2. rewrite E1 in IH.
    destruct pieces as [|q ps].
    + simpl in *. by rewrite IH.
    + rewrite join_cons_cons in *. by rewrite <- IH.
Qed.

Lemma split_pieces_free sep s : Forall (λ piece, sep ∉ piece) (split sep s).
Proof.
  induction s as [|c s IH].
  - simpl. constructor; [|done]. apply not_elem_of_nil.
  - destruct (decide (c = sep)) as [->|Hne].
    + cbn [split]. rewrite N.eqb_refl. constructor; [|done]. apply not_elem_of_nil.
    + destruct (split_cons_ne sep c s Hne) as (piece & pieces & E1 & E2).
      rewrite E2. rewrite E1 in IH. inversion IH as [|? ? Hp Hps]; subst.
      constructor; [|done]. rewrite not_elem_of_cons. done.
Qed.

Lemma split_app_free sep p s :
  sep ∉ p →
  ∃ piece pieces,
    split sep s = piece :: pieces ∧ split sep (p ++ s) = (p ++ piece) :: pieces.
Proof.
  induction p as [|c p IH]; intros Hfree.
  - pose proof (split_not_nil sep s).
    destruct (split sep s) as [|piece pieces] eqn:E; [done|]. by eexists _, _.
  - apply not_elem_of_cons in Hfree as [Hne Hfree].
    destruct (IH Hfree) as (piece & pieces & E1 & E2).
    exists piece, pieces. split; [done|].
    rewrite <- !app_comm_cons.
    destruct (split_cons_ne sep c (p ++ s)) as (piece' & pieces' & E3 & E4); [done|].
    rewrite E4. rewrite E2 in E3. by injection E3 as <- <-.
Qed.

Lemma split_join sep pieces :
  pieces ≠ [] →
  Forall (λ piece, sep ∉ piece) pieces →
  split sep (join [sep] pieces) = pieces.
Proof.
  induction pieces as [|p ps IH]; intros Hne Hfree; [done|].
  inversion Hfree as [|? ? Hp Hps]; subst.
  destruct ps as [|q ps].
  - simpl. destruct (split_app_free sep p [] Hp) as (piece & pieces & E1 & E2).
    rewrite app_nil_r in E2. rewrite E2. simpl in E1. injection E1 as <- <-.
    by rewrite app_nil_r.
  - rewrite join_cons_cons.
    destruct (split_app_free sep p ([sep] ++ join [sep] (q :: ps)) Hp)
      as (piece & pieces & E1 & E2).
    rewrite E2.
    change ([sep] ++ join [sep] (q :: ps)) with (sep :: join [sep] (q :: ps))
      in E1.
    rewrite split_cons_eq in E1.
    injection E1 as <- <-. rewrite app_nil_r. f_equal. by apply IH.
Qed.

(** The lines of a buffer are its maximal runs without a line feed: there
    is one more than there are line feeds in the buffer, none holds a line
    feed, and joined by line feeds they give the buffer back; conversely a
    buffer built by joining line-feed-free lines splits into those lines. *)
Theorem lines_round_trip (a : App) (pieces : list jsstring) :
  length (lines a) = S (length (filter (λ c, c = LF) (code a)))
  ∧ Forall (λ l, LF ∉ l) (lines a)
  ∧ join [LF] (lines a) = code a
  ∧ (pieces ≠ [] → Forall (λ l, LF ∉ l) pieces →
     lines (with_code (join [LF] pieces) a) = pieces).
Proof.
  unfold lines. split; [apply split_length|].
  split; [apply split_pieces_free|].
  split; [apply join_split|].
  intros Hne Hfree. simpl. by apply split_join.
Qed.

Lemma lines_round_trip_witness :
  let pieces := [lit "let cache = [];"; []; lit "}"] in
  pieces ≠ []
  ∧ Forall (λ l, LF ∉ l) pieces
  ∧ lines (with_code (join [LF] pieces) initialApp) = pieces.
Proof.
  intros pieces.
  assert (Hne : pieces ≠ []) by discriminate.
  assert (Hfree : Forall (λ l, LF ∉ l) pieces).
  { repeat constructor; vm_compute; intros H;
      repeat (apply elem_of_cons in H as [H|H]; [discriminate H|]);
      by apply elem_of_nil in H. }
  split; [exact Hne|]. split; [exact Hfree|].
  exact (proj2 (proj2 (proj2 (lines_round_trip initialApp pieces))) Hne Hfree).
Defined.

(** ** More on the log *)

(** A run of appends to a log within its bound keeps, of the old entries
    followed by the new ones, the last 25 in order; while the total stays
    within 25 nothing is dropped. *)
Theorem appendAll_keeps_suffix (entries : list LogEntry) (w : World) :
  length (logs (app w)) ≤ 25 →
  logs (app (appendAll entries w)) = sliceLast 25 (logs (app w) ++ entries)
  ∧ (length (logs (app w)) + length entries ≤ 25 →
     logs (app (appendAll entries w)) = logs (app w) ++ entries).
Proof.
  intros Hle.
  assert (H : logs (app (appendAll entries w))
              = sliceLast 25 (logs (app w) ++ entries)).
  { rewrite appendAll_logs. destruct entries as [|e es].
    - simpl. rewrite app_nil_r. by rewrite sliceLast_all.
    - by rewrite pushLog_foldl. }
  split; [done|]. intros Htot. rewrite H.
  apply sliceLast_all. rewrite length_app. lia.
Qed.

Lemma appendAll_keeps_suffix_witness :
  let entries := [mkLog (lit "one") info; mkLog (lit "two") err] in
  length (logs (app initialWorld)) ≤ 25
  ∧ logs (app (appendAll entries initialWorld)) = entries.
Proof.
  intros entries.
  assert (Hle : length (logs (app initialWorld)) ≤ 25) by (simpl; lia).
  split; [exact Hle|].
  apply (proj2 (appendAll_keeps_suffix entries initialWorld Hle)).
  simpl. lia.
Defined.

(** ** What the component sends to the analysis service *)

Ltac forall_effects :=
  rewrite ?Forall_app; repeat split; try done;
  repeat (apply Forall_cons; split; [try done|]); try apply Forall_nil_2.

Lemma step_requests_invariant e w :
  let ok (v : World) :=
    (provider (app v) = lit "gemini"
     ∧ language (app v) ∈ SUPPORTED_LANGUAGES
     ∧ mode (app v) ∈ personaButtons)
    ∧ Forall well_formed_call (inflight v)
    ∧ Forall (λ eff, match eff with
                     | CallAnalyzeCode call => well_formed_call call
                     | _ => True
                     end) (history v) in
  ok w → ok (step e w).
Proof.
  cbv zeta. intros ((Hp & Hlang & Hm) & Hfly & Hcalls).
  assert (Hsubmit : ∀ alt,
    (provider (app (exec (handleAnalyze alt) w)) = lit "gemini"
     ∧ language (app (exec (handleAnalyze alt) w)) ∈ SUPPORTED_LANGUAGES
     ∧ mode (app (exec (handleAnalyze alt) w)) ∈ personaButtons)
    ∧ Forall well_formed_call (inflight (exec (handleAnalyze alt) w))
    ∧ Forall (λ eff, match eff with
                     | CallAnalyzeCode call => well_formed_call call
                     | _ => True
                     end) (history (exec (handleAnalyze alt) w))).
  { intros alt. unfold exec.
    destruct (blank_cases (code (app w))) as [Hb|Hb].
    - by rewrite handleAnalyze_blank.
    - rewrite handleAnalyze_started by done. simpl.
      assert (well_formed_call (callOf alt (app w))) by (by repeat split).
      split; [done|]. split; forall_effects. }
  destruct e as [| |v|v|k| |v|p| | |o|i s]; unfold step.
  - simpl. destruct (loading (app w)); first [done | apply Hsubmit].
  - simpl. destruct (panel (app w)); first [done | apply Hsubmit].
  - open_world w. simpl in *. forall_effects.
  - open_world w. simpl in *. forall_effects.
  - open_world w. simpl in *. forall_effects.
  - open_world w. simpl in *. forall_effects.
  - case_bool_decide as Hv; [|done]. open_world w. simpl in *. forall_effects.
  - case_bool_decide as Hv; [|done]. open_world w. simpl in *. forall_effects.
  - simpl. destruct (panel (app w)); try done; open_world w; simpl in *;
      forall_effects.
  - destruct (timers w) eqn:Ht; [done|]. open_world w. simpl in *.
    forall_effects.
  - destruct (probing w) eqn:Hpr; [|done]. open_world w. simpl in *.
    forall_effects.
  - destruct (inflight w !! i) eqn:Hi; [|done]. unfold exec.
    assert (Forall well_formed_call (delete i (inflight w)))
      by (by apply Forall_delete).
    destruct s.
    + rewrite handleAnalyze_settled_resolved. simpl. forall_effects.
    + rewrite handleAnalyze_settled_rejected. simpl. forall_effects.
Qed.

(** Every call of [analyzeCode] the component makes, settled or pending,
    carries a buffer that is not blank, the provider [gemini], a language
    of the language list and one of the four personas that have a button;
    the persona [tester] of the type of [mode] is never selected. *)
Theorem requests_are_well_formed (w : World) (call : AnalyzeCall) :
  reachable w →
  (CallAnalyzeCode call ∈ history w → well_formed_call call)
  ∧ (call ∈ inflight w → well_formed_call call)
  ∧ mode (app w) ≠ tester
  ∧ provider (app w) = lit "gemini".
Proof.
  intros Hreach.
  assert (Hinv :
    (provider (app w) = lit "gemini"
     ∧ language (app w) ∈ SUPPORTED_LANGUAGES
     ∧ mode (app w) ∈ personaButtons)
    ∧ Forall well_formed_call (inflight w)
    ∧ Forall (λ eff, match eff with
                     | CallAnalyzeCode call => well_formed_call call
                     | _ => True
                     end) (history w)).
  { revert w Hreach. apply reachable_ind.
    - split; [|by split; constructor]. split; [done|].
      split; apply list_elem_of_here.
    - intros e w _. apply step_requests_invariant. }
  destruct Hinv as ((Hp & _ & Hm) & Hfly & Hcalls).
  split.
  { intros Hin. rewrite Forall_forall in Hcalls. exact (Hcalls _ Hin). }
  split.
  { intros Hin. rewrite Forall_forall in Hfly. exact (Hfly _ Hin). }
  split; [|done].
  intros Ht. rewrite Ht in Hm.
  unfold personaButtons in Hm.
  repeat (apply elem_of_cons in Hm as [Hm|Hm]; [discriminate Hm|]).
  by apply elem_of_nil in Hm.
Qed.

Lemma requests_are_well_formed_witness :
  let w := run [ClickPersona mentor; ClickAnalyze] initialWorld in
  let call := mkCall initialCode (lit "Auto-detect") (lit "gemini") mentor
                     false in
  reachable w ∧ call ∈ inflight w ∧ well_formed_call call.
Proof.
  intros w call.
  assert (Hreach : reachable w) by (by eexists).
  assert (Hin : call ∈ inflight w) by apply list_elem_of_here.
  split; [exact Hreach|]. split; [exact Hin|].
  exact (proj1 (proj2 (requests_are_well_formed w call Hreach)) Hin).
Defined.

(** ** The status probe *)

Lemma step_leaves_probe e w :
  match e with
  | StatusSettled _ => True
  | _ =>
      probing (step e w) = probing w
      ∧ isBackendOnline (app (step e w)) = isBackendOnline (app w)
  end.
Proof.
  assert (Hsubmit : ∀ alt,
    probing (exec (handleAnalyze alt) w) = probing w
    ∧ isBackendOnline (app (exec (handleAnalyze alt) w))
      = isBackendOnline (app w)).
  { intros alt. unfold exec.
    destruct (blank_cases (code (app w))) as [Hb|Hb].
    - by rewrite handleAnalyze_blank.
    - by rewrite handleAnalyze_started. }
  destruct e as [| |v|v|k| |v|p| | |o|i s]; cbv beta iota; unfold step.
  - simpl. destruct (loading (app w)); first [done | apply Hsubmit].
  - simpl. destruct (panel (app w)); first [done | apply Hsubmit].
  - by open_world w.
  - by open_world w.
  - by open_world w.
  - by open_world w.
  - case_bool_decide; [|done]. by open_world w.
  - case_bool_decide; [|done]. by open_world w.
  - simpl. destruct (panel (app w)); try done; by open_world w.
  - destruct (timers w) eqn:Ht; [done|]. by open_world w.
  - done.
  - destruct (inflight w !! i) eqn:Hi; [|done]. unfold exec. destruct s.
    + by rewrite handleAnalyze_settled_resolved.
    + by rewrite handleAnalyze_settled_rejected.
Qed.

Lemma step_keeps_probe_settled e w :
  probing w = false →
  probing (step e w) = false
  ∧ isBackendOnline (app (step e w)) = isBackendOnline (app w).
Proof.
  intros Hpr. pose proof (step_leaves_probe e w) as H.
  destruct e; try (split; [rewrite (proj1 H)|rewrite (proj2 H)]; done).
  unfold step. by rewrite Hpr.
Qed.

Lemma step_StatusSettled_pending online w :
  probing w = true →
  step (StatusSettled online) w
  = mkWorld
      (with_logs
         (pushLog (mkLog (lit "Engine v1.2.0 initialized.") info)
                  (logs (app w)))
         (with_isBackendOnline online (app w)))
      (inflight w) false (timers w)
      (history w ++
         [ SetIsBackendOnline online;
           AddLog (mkLog (lit "Engine v1.2.0 initialized.") info) ]).
Proof.
  intros Hpr. unfold step. rewrite Hpr. open_world w.
  act_unfold. cbn. by rewrite <- !app_assoc.
Qed.

Lemma step_probe_pending_offline e w :
  (probing w = true → isBackendOnline (app w) = false) →
  probing (step e w) = true → isBackendOnline (app (step e w)) = false.
Proof.
  intros Hinv. pose proof (step_leaves_probe e w) as H.
  destruct e; try (rewrite (proj1 H), (proj2 H); exact Hinv).
  unfold step. destruct (probing w) eqn:Hpr; [|by rewrite Hpr].
  by open_world w.
Qed.

(** The backend status is probed once, at mount.  Until the probe settles
    the cell keeps its initial [false].  Its settlement, in whatever world
    it arrives, writes the answer to the cell, logs the initialisation line
    as the last entry at level [info], makes these two calls and no other,
    and leaves the other cells and the pending calls as they were.  Once
    the probe has settled no event changes the cell, and a further
    settlement does nothing. *)
Theorem backend_status_settles_once (w v : World) (events : list Event)
    (online : bool) :
  (probing w = false →
   isBackendOnline (app (run events w)) = isBackendOnline (app w)
   ∧ probing (run events w) = false
   ∧ step (StatusSettled online) w = w)
  ∧ (probing v = true →
     let v' := step (StatusSettled online) v in
     isBackendOnline (app v') = online
     ∧ probing v' = false
     ∧ last (logs (app v'))
       = Some (mkLog (lit "Engine v1.2.0 initialized.") info)
     ∧ history v'
       = history v ++
         [ SetIsBackendOnline online;
           AddLog (mkLog (lit "Engine v1.2.0 initialized.") info) ]
     ∧ with_logs (logs (app v)) (with_isBackendOnline (isBackendOnline (app v))
                                                      (app v'))
       = app v
     ∧ inflight v' = inflight v
     ∧ isBackendOnline (app (run events v')) = online)
  ∧ (reachable v → probing v = true → isBackendOnline (app v) = false).
Proof.
  assert (Hrun : ∀ u, probing u = false →
            isBackendOnline (app (run events u)) = isBackendOnline (app u)
            ∧ probing (run events u) = false).
  { intros u Hpr.
    induction events as [|e events IH] using rev_ind; [done|].
    rewrite run_snoc. destruct IH as [IH1 IH2].
    destruct (step_keeps_probe_settled e _ IH2) as [H1 H2].
    split; [congruence|done]. }
  split; [|split].
  - intros Hpr. destruct (Hrun w Hpr) as [H1 H2].
    split; [done|]. split; [done|]. unfold step. by rewrite Hpr.
  - intros Hpr. cbv zeta.
    assert (Hv' : probing (step (StatusSettled online) v) = false)
      by (by rewrite step_StatusSettled_pending).
    destruct (Hrun _ Hv') as [H1 _]. rewrite H1.
    rewrite step_StatusSettled_pending by done. simpl.
    repeat split; [apply last_snoc|by destruct v as [[]]].
  - intros Hreach. revert v Hreach.
    apply (reachable_ind
             (λ v, probing v = true → isBackendOnline (app v) = false));
      [done|].
    intros e u _. apply step_probe_pending_offline.
Qed.

Lemma backend_status_settles_once_witness :
  let v := run [ClickAnalyze; ChangeTextarea (lit "x")] initialWorld in
  let w := step (StatusSettled true) v in
  let events := [ClickAnalyze; StatusSettled false; ClickClear] in
  probing v = true
  ∧ reachable v
  ∧ probing w = false
  ∧ isBackendOnline (app v) = false
  ∧ isBackendOnline (app w) = true
  ∧ last (logs (app w)) = Some (mkLog (lit "Engine v1.2.0 initialized.") info)
  ∧ isBackendOnline (app (run events w)) = true.
Proof.
  intros v w events.
  assert (Hv : probing v = true) by reflexivity.
  assert (Hreach : reachable v) by (by eexists).
  assert (Hw : probing w = false) by reflexivity.
  destruct (backend_status_settles_once w v events true)
    as (Hsettled & Hpending & Hoffline).
  destruct (Hpending Hv) as (Hon & _ & Hlog & _).
  destruct (Hsettled Hw) as (Hkeep & _).
  split; [exact Hv|]. split; [exact Hreach|]. split; [exact Hw|].
  split; [exact (Hoffline Hreach Hv)|].
  split; [exact Hon|]. split; [exact Hlog|].
  rewrite Hkeep. exact Hon.
Defined.

(** ** The right panel *)

(** The right panel always shows one of three things and never nothing:
    the skeleton exactly while [loading] is set, even when a result is
    held, the review of the held result exactly when there is one and
    [loading] is not set, and the placeholder otherwise. *)
Theorem panel_cases (a : App) (r : CodeReviewResult) :
  panel a ≠ Nothing
  ∧ (panel a = Skeleton ↔ loading a = true)
  ∧ (panel a = Review r ↔ loading a = false ∧ result a = Some r)
  ∧ (panel a = EmptyPlaceholder (mode a)
     ↔ loading a = false ∧ result a = None).
Proof.
  split; [apply panel_not_Nothing|].
  unfold panel. destruct a as [? ? ? ? ld res ? ? ? ?]; simpl.
  destruct res as [r'|], ld; simpl; repeat split; try done;
    try (intros [? ?]; congruence); try congruence.
  all: by intros [_ [= ->]].
Qed.

(** ** A result that arrives after the buffer was replaced *)

(** Nothing ties a pending call to the buffer it was made for: when the
    buffer is replaced or edited while the call is pending, its result is
    stored all the same and the gutter of the new buffer is marked from
    issues found in the old one. *)
Theorem late_result_lands_on_new_buffer (w : World) (e : Event)
    (R : CodeReviewResult) :
  blank (code (app w)) = false →
  loading (app w) = false →
  inflight w = [] →
  match e with
  | ChangeTextarea _ | FileLoaded _ | SelectSample _ | ClickClear =>
      let w1 := run [ClickAnalyze; e] w in
      let w2 := step (AnalyzeSettled 0 (Resolved R)) w1 in
      inflight w1 = [callOf false (app w)]
      ∧ code (app w2) = code (app w1)
      ∧ result (app w2) = Some R
      ∧ gutterRows (view (app w2))
        = gutter (split LF (code (app w1))) (Some (issues R))
  | _ => True
  end.
Proof.
  intros Hb Hl Hin.
  assert (Hstart : step ClickAnalyze w
                   = snd (handleAnalyze false w)).
  { by rewrite step_ClickAnalyze_idle. }
  destruct e as [| |v|v|k| |v|p| | |o|i s]; try done; cbv zeta;
    match goal with
    | |- context [run [ClickAnalyze; ?e] w] =>
        change (run [ClickAnalyze; e] w) with (step e (step ClickAnalyze w))
    end;
    rewrite Hstart, handleAnalyze_started by done;
    (erewrite step_AnalyzeSettled_only by (simpl; by rewrite Hin));
    unfold exec; rewrite handleAnalyze_settled_resolved; simpl;
    by rewrite Hin.
Qed.

Lemma late_result_lands_on_new_buffer_witness :
  let R := mkResult [] [mkIssue 1 BUG HIGH [] []] (mkMetrics 0 0 0 0) [] [] in
  let w1 := run [ClickAnalyze; ClickClear] initialWorld in
  let w2 := step (AnalyzeSettled 0 (Resolved R)) w1 in
  blank (code (app initialWorld)) = false
  ∧ code (app w2) = []
  ∧ result (app w2) = Some R
  ∧ gutterRows (view (app w2)) = [mkRow 1 true].
Proof.
  intros R w1 w2.
  split; [reflexivity|].
  destruct (late_result_lands_on_new_buffer initialWorld ClickClear R
              eq_refl eq_refl eq_refl) as (_ & Hc & Hr & Hg).
  split; [exact Hc|]. split; [exact Hr|exact Hg].
Defined.

(** ** The Copy Report label *)

Lemma step_copied_has_timer e w :
  (copySuccess (app w) = true → 0 < timers w) →
  copySuccess (app (step e w)) = true → 0 < timers (step e w).
Proof.
  intros Hinv.
  assert (Hsubmit : ∀ alt,
    copySuccess (app (exec (handleAnalyze alt) w)) = true →
    0 < timers (exec (handleAnalyze alt) w)).
  { intros alt. unfold exec.
    destruct (blank_cases (code (app w))) as [Hb|Hb].
    - by rewrite handleAnalyze_blank.
    - rewrite handleAnalyze_started by done. simpl. done. }
  destruct e as [| |v|v|k| |v|p| | |o|i s]; unfold step.
  - simpl. destruct (loading (app w)); first [done | apply Hsubmit].
  - simpl. destruct (panel (app w)); first [done | apply Hsubmit].
  - open_world w; simpl in *; done.
  - open_world w; simpl in *; done.
  - open_world w; simpl in *; done.
  - open_world w; simpl in *; done.
  - case_bool_decide; [|done]. open_world w; simpl in *; done.
  - case_bool_decide; [|done]. open_world w; simpl in *; done.
  - simpl. destruct (panel (app w)); try done. open_world w. simpl. lia.
  - destruct (timers w) eqn:Ht; [intros H; apply Hinv in H; lia|].
    open_world w; simpl in *; done.
  - destruct (probing w) eqn:Hpr; [|done]. open_world w; simpl in *; done.
  - destruct (inflight w !! i) eqn:Hi; [|done]. unfold exec. destruct s.
    + rewrite handleAnalyze_settled_resolved. simpl. done.
    + rewrite handleAnalyze_settled_rejected. simpl. done.
Qed.

Lemma timeouts_reset_copySuccess n w :
  n = timers w → 0 < n →
  copySuccess (app (run (replicate n TimeoutFired) w)) = false.
Proof.
  revert w. induction n as [|n IH]; intros w Hn Hpos; [lia|].
  change (run (replicate (S n) TimeoutFired) w)
    with (run (replicate n TimeoutFired) (step TimeoutFired w)).
  destruct n as [|n].
  - unfold step. rewrite <- Hn. by open_world w.
  - apply IH; [|lia]. unfold step. rewrite <- Hn. by open_world w.
Qed.

(** The label [Copied] never sticks: whenever it shows, a timer that will
    reset it is pending, and once the pending timers have fired the label
    is back to [Copy Report]. *)
Theorem copied_label_resets (w : World) :
  reachable w →
  (copySuccess (app w) = true → 0 < timers w)
  ∧ copyLabel (view (app (run (replicate (timers w) TimeoutFired) w)))
    = lit "Copy Report".
Proof.
  intros Hreach.
  assert (Hinv : copySuccess (app w) = true → 0 < timers w).
  { revert w Hreach.
    apply (reachable_ind (λ w, copySuccess (app w) = true → 0 < timers w));
      [done|].
    intros e w _. apply step_copied_has_timer. }
  split; [done|]. simpl.
  destruct (timers w) as [|n] eqn:Ht.
  - simpl. destruct (copySuccess (app w)); [|done].
    specialize (Hinv eq_refl). lia.
  - rewrite timeouts_reset_copySuccess; [done|done|lia].
Qed.

Lemma copied_label_resets_witness :
  let R := mkResult (lit "report") [] (mkMetrics 0 0 0 0) [] [] in
  let w := run [ClickAnalyze; AnalyzeSettled 0 (Resolved R); ClickCopy;
                ClickCopy] initialWorld in
  reachable w
  ∧ copyLabel (view (app w)) = lit "Copied"
  ∧ timers w = 2
  ∧ copyLabel (view (app (run [TimeoutFired; TimeoutFired] w)))
    = lit "Copy Report".
Proof.
  intros R w.
  assert (Hreach : reachable w) by (by eexists).
  split; [exact Hreach|]. split; [reflexivity|]. split; [reflexivity|].
  exact (proj2 (copied_label_resets w Hreach)).
Defined.

(** ** Levels of the log *)

Lemma pushLog_Forall (P : LogEntry → Prop) entry prev :
  P entry → Forall P prev → Forall P (pushLog entry prev).
Proof.
  intros He Hprev. unfold pushLog, sliceLast.
  apply Forall_app. split; [by apply Forall_drop|]. by repeat constructor.
Qed.

Lemma step_log_levels e w :
  let ok (entry : LogEntry) :=
    type entry = info
    ∨ (type entry = err ∧ ∃ m, msg entry = lit "Error: " ++ m) in
  Forall ok (logs (app w)) → Forall ok (logs (app (step e w))).
Proof.
  cbv zeta. intros Hinv.
  assert (Hsubmit : ∀ alt,
    Forall (λ entry, type entry = info
                     ∨ (type entry = err ∧ ∃ m, msg entry = lit "Error: " ++ m))
           (logs (app (exec (handleAnalyze alt) w)))).
  { intros alt. unfold exec.
    destruct (blank_cases (code (app w))) as [Hb|Hb].
    - by rewrite handleAnalyze_blank.
    - rewrite handleAnalyze_started by done. simpl.
      apply pushLog_Forall; [by left|done]. }
  destruct e as [| |v|v|k| |v|p| | |o|i s]; unfold step.
  - simpl. destruct (loading (app w)); first [done | apply Hsubmit].
  - simpl. destruct (panel (app w)); first [done | apply Hsubmit].
  - open_world w; simpl in *; done.
  - open_world w; simpl in *; done.
  - open_world w; simpl in *; done.
  - open_world w; simpl in *; done.
  - case_bool_decide; [|done]. open_world w; simpl in *; done.
  - case_bool_decide; [|done]. open_world w; simpl in *; done.
  - simpl. destruct (panel (app w)); try done; open_world w; simpl in *; done.
  - destruct (timers w) eqn:Ht; [done|]. open_world w; simpl in *; done.
  - destruct (probing w) eqn:Hpr; [|done]. open_world w; simpl in *.
    apply pushLog_Forall; [by left|done].
  - destruct (inflight w !! i) eqn:Hi; [|done]. unfold exec. destruct s.
    + rewrite handleAnalyze_settled_resolved. simpl.
      apply pushLog_Forall; [by left|done].
    + rewrite handleAnalyze_settled_rejected. simpl.
      apply pushLog_Forall; [|done]. right. split; [done|]. by eexists.
Qed.

(** The log never holds an entry of level [warn]; an entry of level [err]
    is always the report of a rejected analysis, [Error: ] followed by the
    message. *)
Theorem log_levels (w : World) (entry : LogEntry) :
  reachable w →
  entry ∈ logs (app w) →
  type entry ≠ warn
  ∧ (type entry = err → ∃ m, msg entry = lit "Error: " ++ m).
Proof.
  intros Hreach Hin.
  assert (Hinv : ∀ v, reachable v →
    Forall (λ entry, type entry = info
                     ∨ (type entry = err ∧ ∃ m, msg entry = lit "Error: " ++ m))
           (logs (app v))).
  { apply (reachable_ind
             (λ v, Forall (λ entry, type entry = info
                                    ∨ (type entry = err
                                       ∧ ∃ m, msg entry = lit "Error: " ++ m))
                          (logs (app v)))).
    - constructor.
    - intros e' w' _. apply step_log_levels. }
  specialize (Hinv w Hreach).
  rewrite Forall_forall in Hinv.
  destruct (Hinv entry Hin) as [Hi|[He Hm]].
  - split; [by rewrite Hi|]. by rewrite Hi.
  - split; [by rewrite He|done].
Qed.

Lemma log_levels_witness :
  let w := run [ClickAnalyze; AnalyzeSettled 0 (Rejected (mkError (lit "503")))]
               initialWorld in
  let entry := mkLog (lit "Error: 503") err in
  reachable w ∧ entry ∈ logs (app w) ∧ type entry ≠ warn.
Proof.
  intros w entry.
  assert (Hreach : reachable w) by (by eexists).
  assert (Hin : entry ∈ logs (app w)).
  { apply list_elem_of_further, list_elem_of_here. }
  split; [exact Hreach|]. split; [exact Hin|].
  exact (proj1 (log_levels w entry Hreach Hin)).
Defined.

(** ** The error cell *)

Lemma step_forgets_error e w x :
  onApp (with_error None) (step e (onApp (with_error x) w))
  = onApp (with_error None) (step e w).
Proof.
  assert (Hsubmit : ∀ alt,
    onApp (with_error None) (exec (handleAnalyze alt) (onApp (with_error x) w))
    = onApp (with_error None) (exec (handleAnalyze alt) w)).
  { intros alt. unfold exec.
    destruct (blank_cases (code (app w))) as [Hb|Hb].
    - rewrite !handleAnalyze_blank; [by open_world w|done|by open_world w].
    - rewrite !handleAnalyze_started; [by open_world w|done|by open_world w]. }
  destruct e as [| |v|v|k| |v|p| | |o|i s]; unfold step.
  - change (analyzeDisabled (view (app (onApp (with_error x) w))))
      with (loading (app w)).
    change (analyzeDisabled (view (app w))) with (loading (app w)).
    destruct (loading (app w)); [by open_world w|apply Hsubmit].
  - change (rightPanel (view (app (onApp (with_error x) w))))
      with (panel (app w)).
    change (rightPanel (view (app w))) with (panel (app w)).
    destruct (panel (app w)); first [by open_world w | apply Hsubmit].
  - by open_world w.
  - by open_world w.
  - by open_world w.
  - by open_world w.
  - case_bool_decide; by open_world w.
  - case_bool_decide; by open_world w.
  - change (rightPanel (view (app (onApp (with_error x) w))))
      with (panel (app w)).
    change (rightPanel (view (app w))) with (panel (app w)).
    destruct (panel (app w)); by open_world w.
  - change (timers (onApp (with_error x) w)) with (timers w).
    destruct (timers w); by open_world w.
  - change (probing (onApp (with_error x) w)) with (probing w).
    destruct (probing w); by open_world w.
  - change (inflight (onApp (with_error x) w)) with (inflight w).
    destruct (inflight w !! i); [|by open_world w].
    unfold exec. destruct s.
    + rewrite !handleAnalyze_settled_resolved. by open_world w.
    + rewrite !handleAnalyze_settled_rejected. by open_world w.
Qed.

Lemma restore_error w : onApp (with_error (error (app w))) w = w.
Proof. by open_world w. Qed.

Lemma forget_error_twice w x :
  onApp (with_error x) (onApp (with_error None) w) = onApp (with_error x) w.
Proof. by open_world w. Qed.

(** The [error] cell is written and never read: two worlds that differ in
    it at most show the same view and, after any event, again differ in it
    at most; what a failed analysis leaves to see is its log line. *)
Theorem error_cell_is_write_only (w1 w2 : World) (e : Event) :
  same_but_error w1 w2 →
  view (app w1) = view (app w2)
  ∧ same_but_error (step e w1) (step e w2).
Proof.
  unfold same_but_error. intros Heq. split.
  - apply (f_equal (λ w, view (app w))) in Heq.
    revert Heq. by open_world w1; open_world w2.
  - assert (Hnorm : ∀ w,
      onApp (with_error None) (step e w)
      = onApp (with_error None) (step e (onApp (with_error None) w))).
    { intros w.
      rewrite <- (step_forgets_error e (onApp (with_error None) w)
                    (error (app w))).
      by rewrite forget_error_twice, restore_error. }
    rewrite (Hnorm w1), (Hnorm w2). by rewrite Heq.
Qed.

Lemma error_cell_is_write_only_witness :
  let w1 := initialWorld in
  let w2 := onApp (with_error (Some (lit "503"))) initialWorld in
  same_but_error w1 w2
  ∧ view (app w1) = view (app w2)
  ∧ same_but_error (step ClickAnalyze w1) (step ClickAnalyze w2).
Proof.
  intros w1 w2.
  assert (H : same_but_error w1 w2) by reflexivity.
  split; [exact H|].
  exact (error_cell_is_write_only w1 w2 ClickAnalyze H).
Defined.

(** ** After Clear *)

Lemma handleAnalyze_blank_is_noop_aux w :
  blank (code (app w)) = true →
  step ClickAnalyze w = w ∧ step ClickRegenerate w = w.
Proof.
  intros Hb. unfold step, exec. split.
  - destruct (analyzeDisabled _); [done|]. by rewrite handleAnalyze_blank.
  - destruct (rightPanel _); try done. by rewrite handleAnalyze_blank.
Qed.


(** After Clear the buffer is empty: the gutter shows the single row 1
    without a marker, the telemetry reads [1 L / 0 A], and both buttons
    that submit do nothing until something is typed or loaded. *)
Theorem clear_leaves_nothing_to_analyze (w : World) :
  let w' := step ClickClear w in
  code (app w') = []
  ∧ gutterRows (view (app w')) = [mkRow 1 false]
  ∧ telemetryText (view (app w')) = lit "1 L / 0 A"
  ∧ step ClickAnalyze w' = w'
  ∧ step ClickRegenerate w' = w'
  ∧ (loading (app w) = false
     → rightPanel (view (app w')) = EmptyPlaceholder (mode (app w))).
Proof.
  cbv zeta.
  assert (Hc : code (app (step ClickClear w)) = []) by (by open_world w).
  assert (Hr : result (app (step ClickClear w)) = None) by (by open_world w).
  split; [done|]. split; [by open_world w|]. split; [by open_world w|].
  assert (Hb : blank (code (app (step ClickClear w))) = true) by (by rewrite Hc).
  destruct (handleAnalyze_blank_is_noop_aux (step ClickClear w) Hb) as [H1 H2].
  split; [done|]. split; [done|].
  intros Hl. open_world w. simpl in *. by rewrite Hl.
Qed.

Lemma clear_leaves_nothing_to_analyze_witness :
  let w' := step ClickClear initialWorld in
  loading (app initialWorld) = false
  ∧ rightPanel (view (app w')) = EmptyPlaceholder strict
  ∧ step ClickAnalyze w' = w'.
Proof.
  intros w'.
  assert (Hl : loading (app initialWorld) = false) by reflexivity.
  destruct (clear_leaves_nothing_to_analyze initialWorld)
    as (_ & _ & _ & Ha & _ & Hp).
  split; [exact Hl|]. split; [exact (Hp Hl)|exact Ha].
Defined.

(** ** Markers and findings *)

Lemma gutter_numbers lines found :
  number <$> gutter lines found = seq 1 (length lines).
Proof.
  apply list_eq. intros i.
  rewrite list_lookup_fmap, gutter_lookup.
  case_decide as Hi.
  - simpl. rewrite lookup_seq_lt by done. f_equal. lia.
  - simpl. symmetry. apply lookup_ge_None_2. rewrite length_seq. lia.
Qed.

Lemma marked_numbers_NoDup lines found :
  NoDup ((λ row, Z.of_nat (number row))
           <$> filter (λ row, marked row = true) (gutter lines found)).
Proof.
  change (λ row, Z.of_nat (number row)) with (Z.of_nat ∘ number).
  rewrite list_fmap_compose. apply (NoDup_fmap_2 _).
  apply (sublist_NoDup _ (number <$> gutter lines found)).
  - rewrite gutter_numbers. apply NoDup_seq.
  - apply fmap_sublist, sublist_filter.
Qed.

(** The gutter never shows more markers than the telemetry counts
    findings: each marked row is the line of some issue of the held
    result, and different rows are lines of different issues; without a
    result no row is marked. *)
Theorem markers_at_most_findings (a : App) :
  length (filter (λ row, marked row = true) (gutterRows (view a)))
  ≤ match result a with
    | Some r => length (issues r)
    | None => 0
    end.
Proof.
  simpl. destruct (result a) as [r|]; simpl.
  - rewrite <- (length_fmap (λ row, Z.of_nat (number row))).
    rewrite <- (length_fmap line (issues r)).
    apply submseteq_length, NoDup_submseteq; [apply marked_numbers_NoDup|].
    intros z (row & -> & Hrow)%list_elem_of_fmap.
    apply list_elem_of_filter in Hrow as [Hm Hin].
    apply (gutter_marked_iff_annotated _ _ _ Hin) in Hm.
    apply elem_of_annotate in Hm as (_ & iss & Hiss & <-).
    by apply list_elem_of_fmap_2.
  - apply Nat.le_0_r, length_zero_iff_nil.
    apply list_eq. intros i. rewrite lookup_nil.
    apply eq_None_not_Some. intros [row Hrow].
    apply list_elem_of_lookup_2, list_elem_of_filter in Hrow as [Hm Hin].
    apply list_elem_of_lookup in Hin as [k Hk].
    rewrite gutter_lookup in Hk. case_decide; [|done].
    injection Hk as <-. done.
Qed.

(** ** Regenerate Alternative *)

Lemma step_result_was_stored e w :
  (∀ r, result (app w) = Some r → SetResult (Some r) ∈ history w) →
  ∀ r, result (app (step e w)) = Some r →
       SetResult (Some r) ∈ history (step e w).
Proof.
  intros Hinv.
  assert (Hsubmit : ∀ alt r,
    result (app (exec (handleAnalyze alt) w)) = Some r →
    SetResult (Some r) ∈ history (exec (handleAnalyze alt) w)).
  { intros alt r. unfold exec.
    destruct (blank_cases (code (app w))) as [Hb|Hb].
    - rewrite handleAnalyze_blank by done. apply Hinv.
    - rewrite handleAnalyze_started by done. simpl. intros Hr.
      apply elem_of_app. left. by apply Hinv. }
  destruct e as [| |v|v|k| |v|p| | |o|i s]; unfold step.
  - simpl. destruct (loading (app w)); first [done | apply Hsubmit].
  - simpl. destruct (panel (app w)); first [done | apply Hsubmit].
  - open_world w. simpl in *. intros r Hr. apply elem_of_app. left. auto.
  - open_world w. simpl in *. done.
  - open_world w. simpl in *. done.
  - open_world w. simpl in *. done.
  - case_bool_decide; [|done]. open_world w. simpl in *.
    intros r Hr. apply elem_of_app. left. auto.
  - case_bool_decide; [|done]. open_world w. simpl in *.
    intros r Hr. apply elem_of_app. left. auto.
  - simpl. destruct (panel (app w)); try done; open_world w; simpl in *;
      intros r' Hr; rewrite !elem_of_app; left; left; left; auto.
  - destruct (timers w) eqn:Ht; [done|]. open_world w. simpl in *.
    intros r Hr. apply elem_of_app. left. auto.
  - destruct (probing w) eqn:Hpr; [|done]. open_world w. simpl in *.
    intros r Hr. rewrite !elem_of_app. left. left. auto.
  - destruct (inflight w !! i) eqn:Hi; [|done]. unfold exec. destruct s.
    + rewrite handleAnalyze_settled_resolved. simpl. intros r [= <-].
      apply elem_of_app. right. apply list_elem_of_here.
    + rewrite handleAnalyze_settled_rejected. simpl. intros r Hr.
      apply elem_of_app. left. auto.
Qed.

(** An alternative pass is requested only for a result on display: a click
    on Regenerate Alternative that does anything finds [loading] unset and a
    result in the cell, stored there by an analysis that resolved earlier
    in the session, and the call it starts carries the alternative flag and
    the buffer as it is now. *)
Theorem regenerate_needs_a_result (w : World) :
  reachable w →
  step ClickRegenerate w ≠ w →
  loading (app w) = false
  ∧ (∃ r, result (app w) = Some r ∧ SetResult (Some r) ∈ history w)
  ∧ inflight (step ClickRegenerate w) = [callOf true (app w)].
Proof.
  intros Hreach Hacts.
  assert (Hstored : ∀ v, reachable v →
            ∀ r, result (app v) = Some r → SetResult (Some r) ∈ history v).
  { apply (reachable_ind
             (λ v, ∀ r, result (app v) = Some r
                        → SetResult (Some r) ∈ history v)); [done|].
    intros e v _. apply step_result_was_stored. }
  unfold step in *. simpl in *.
  destruct (panel (app w)) eqn:Hp; try done.
  apply panel_Review_idle in Hp as [Hl Hr].
  split; [done|]. split; [by eauto|].
  destruct (blank_cases (code (app w))) as [Hb|Hb].
  - exfalso. apply Hacts. unfold exec. by rewrite handleAnalyze_blank.
  - unfold exec. rewrite handleAnalyze_started by done. simpl.
    destruct (reachable_single_flight w Hreach) as [[_ ->]|[Hl' _]];
      [done|congruence].
Qed.

Lemma regenerate_needs_a_result_witness :
  let R := mkResult (lit "report") [] (mkMetrics 0 0 0 0) [] [] in
  let w := run [ClickAnalyze; AnalyzeSettled 0 (Resolved R)] initialWorld in
  reachable w
  ∧ step ClickRegenerate w ≠ w
  ∧ inflight (step ClickRegenerate w) = [callOf true (app w)].
Proof.
  intros R w.
  assert (Hreach : reachable w) by (by eexists).
  assert (Hacts : step ClickRegenerate w ≠ w).
  { intros H. apply (f_equal (λ v, loading (app v))) in H. discriminate H. }
  split; [exact Hreach|]. split; [exact Hacts|].
  exact (proj2 (proj2 (regenerate_needs_a_result w Hreach Hacts))).
Defined.
